(** * BabyBertSRL: data preparation and evaluation loops

    A shallow embedding of [add_srl_tags.py], [babybertsrl/eval.py] and
    [LMBert.decode] of [babybertsrl/model_lm.py].

    Python values are modelled as follows.
    - [str] is [string]; a character is read as a code point below 256.
    - a Python [list] is a Rocq [list]; [len] is [length].
    - a generator is the list of the values it yields, in order.
    - an exception is a constructor of [exn]; code that can raise returns
      a [result].
    - the pretrained components (spaCy tagger, DeepSegment, the AllenNLP
      predictor, the torch model and its tensors) and the progress bar of
      pyprind are not part of the repository: they are Section variables.
      The calls of the progress bar may raise; the other components are
      taken as functions, and what they raise is outside the model. *)

From Stdlib Require Import String Ascii DecimalString ZArith Lia Sorted.
From stdpp Require Import base list strings gmap.

Open Scope string_scope.
Open Scope nat_scope.
Open Scope list_scope.

(** ** Python primitives *)

Module Py.

Inductive exn : Type :=
| IndexError
| ValueError
| EOFError
| ZeroDivisionError
| KeyError (key : string)
| SystemExit (msg : string).

Inductive result (A : Type) : Type :=
| Ok (a : A)
| Raise (e : exn).

Arguments Ok {A} a.
Arguments Raise {A} e.

Definition bind {A B : Type} (m : result A) (k : A -> result B) : result B :=
  match m with
  | Ok a => k a
  | Raise e => Raise e
  end.

Notation "'let!' x ':=' m 'in' k" := (bind m (fun x => k))
  (at level 10, x name, m at level 100, k at level 200).

(** [for x in xs: st = body(st, x)], where the body may raise. *)
Fixpoint for_each {A S : Type} (body : S -> A -> result S) (xs : list A) (st : S)
  : result S :=
  match xs with
  | [] => Ok st
  | x :: xs' => let! st' := body st x in for_each body xs' st'
  end.

(** [sep.join(l)] *)
Definition join (sep : string) (l : list string) : string := String.concat sep l.

(** [s.startswith(p)] *)
Definition startswith (s p : string) : bool := String.prefix p s.

(** [s[n:]] *)
Fixpoint slice_from (n : nat) (s : string) : string :=
  match n, s with
  | O, _ => s
  | S _, EmptyString => EmptyString
  | S n', String _ s' => slice_from n' s'
  end.

(** [str(n)] for a non-negative [int] *)
Definition str_of_nat (n : nat) : string := NilZero.string_of_uint (Nat.to_uint n).

(** [c.isspace()] on code points below 256 *)
Definition isspace (c : ascii) : bool :=
  let n := nat_of_ascii c in
  ((9 <=? n) && (n <=? 13)) || ((28 <=? n) && (n <=? 32))
  || (n =? 133) || (n =? 160).

(** [s.split()]: maximal runs of non-whitespace characters. [cur] is the
    run being read. *)
Fixpoint split_from (cur : string) (s : string) : list string :=
  match s with
  | EmptyString => match cur with EmptyString => [] | _ => [cur] end
  | String c s' =>
      if isspace c
      then match cur with
           | EmptyString => split_from EmptyString s'
           | _ => cur :: split_from EmptyString s'
           end
      else split_from (cur +:+ String c EmptyString) s'
  end.

Definition split (s : string) : list string := split_from EmptyString s.

(** [x in l] for a list of strings *)
Definition contains (l : list string) (x : string) : bool :=
  existsb (String.eqb x) l.

(** [l.index(x)]: position of the first occurrence, [ValueError] if none. *)
Fixpoint index (l : list string) (x : string) : result nat :=
  match l with
  | [] => Raise ValueError
  | y :: l' => if String.eqb y x then Ok 0
               else let! i := index l' x in Ok (S i)
  end.

(** [l[i] = v]: [IndexError] out of range. *)
Definition setitem {A : Type} (l : list A) (i : nat) (v : A) : result (list A) :=
  if i <? length l then Ok (<[i:=v]> l) else Raise IndexError.

(** truth value of a list: [if l:] *)
Definition truthy {A : Type} (l : list A) : bool :=
  match l with [] => false | _ => true end.

End Py.

Import Py.

(** ** add_srl_tags.py *)

Module AddSrlTags.

Definition CORPUS_NAME : string := "childes-20191206".
Definition INTERACTIVE : bool := false.
Definition BATCH_SIZE : nat := 128.

(** *** make_srl_string *)

(** The bracketed text of a finished chunk. *)
Definition bracket (chunk : list string) : string :=
  "[" +:+ join " " chunk +:+ "]".

(** [if chunk: frame.append(...); chunk = []] *)
Definition flush (st : list string * list string) : list string * list string :=
  let '(frame, chunk) := st in
  if truthy chunk then (frame ++ [bracket chunk], []) else (frame, chunk).

(** One iteration of the loop over [zip(words, tags)]; the state is
    [(frame, chunk)]. *)
Definition srl_step (st : list string * list string) (wt : string * string)
  : list string * list string :=
  let '(token, tag) := wt in
  if startswith tag "I-" then
    let '(frame, chunk) := st in (frame, chunk ++ [token])
  else
    let '(frame, chunk) := flush st in
    if startswith tag "B-" then
      (frame, chunk ++ [slice_from 2 tag +:+ ": " +:+ token])
    else if String.eqb tag "O" then
      (frame ++ [token], chunk)
    else (frame, chunk).

Definition make_srl_string (words tags : list string) : string :=
  let '(frame, _) := flush (fold_left srl_step (zip words tags) ([], [])) in
  join " " frame.

(** The tags under which a token is copied to the output. *)
Definition emitted_tag (tag : string) : bool :=
  startswith tag "I-" || startswith tag "B-" || String.eqb tag "O".

(** *** Data of the pipeline *)

(** A spaCy token: its text and the coarse POS tag set by the tagger. *)
Record Token : Type := { text : string; pos_ : string }.

(** An entry of [res]: the keys ['tags'] and ['words'] of the output
    dictionary of the SRL model. *)
Record Prediction : Type := { tags : list string; words : list string }.

(** The variables of the module-level loop. [keys] is what is left to read
    on standard input; what is printed is not modelled. *)
Record State : Type := {
  num_no_verb : nat;
  lines : list string;
  keys : list string
}.

Definition newline : string := String (ascii_of_nat 10) EmptyString.

(** [enumerate(l)], counting from [k] *)
Fixpoint enumerate_from {A : Type} (k : nat) (l : list A) : list (nat * A) :=
  match l with
  | [] => []
  | x :: l' => (k, x) :: enumerate_from (S k) l'
  end.

Definition enumerate {A : Type} (l : list A) : list (nat * A) := enumerate_from 0 l.

(** The truth value of a generator object: it defines neither [__bool__]
    nor [__len__], so it is always true. *)
Definition generator_truthy {A : Type} (g : result (list A)) : bool := true.

(** [f'{verb_index} {x_string} ||| {y_string}'] *)
Definition format_line (verb_index : nat) (x_string y_string : string) : string :=
  str_of_nat verb_index +:+ " " +:+ x_string +:+ " ||| " +:+ y_string.

(** [for line in lines: f.write(line + '\n')] on a file opened with ['w'];
    the result is the content of the file. *)
Definition write_lines (lines : list string) : string :=
  fold_left (fun f line => f +:+ (line +:+ newline)) lines EmptyString.

(** The lines of [ls], each followed by a newline, one after the other. *)
Fixpoint newline_terminated (ls : list string) : string :=
  match ls with
  | [] => EmptyString
  | l :: ls' => l +:+ newline +:+ newline_terminated ls'
  end.

Section Script.

(** The POS tag the spaCy pipeline of the predictor gives to token [i] of
    the [Doc] made of [words]. *)
Variable pos_tagger : list string -> nat -> string.

(** [allennlp.data.instance.Instance] and
    [predictor._dataset_reader.text_to_instance] *)
Variable Instance : Type.
Variable text_to_instance : list Token -> list nat -> Instance.

(** [segmentation.segment] of DeepSegment *)
Variable segment : string -> list string.

(** [predictor._model.forward_on_instances], taken as a function from a
    batch to the list of its predictions; what AllenNLP does on a batch it
    cannot process is outside the model. *)
Variable forward_on_instances : list Instance -> list Prediction.

(** [load_utterances_from_file(utterances_path)]: each utterance is a list
    of words. *)
Variable utterances : list (list string).

(** The progress bar of pyprind: [pyprind.ProgBar(iterations, stream=1)] and
    [progress_bar.update()], which gives the bar after the update. Either
    call may raise. *)
Variable ProgBar : Type.
Variable new_progress_bar : nat -> result ProgBar.
Variable progress_bar_update : ProgBar -> result ProgBar.

(** [Doc(vocab, words=words)] after the pipeline ran: one token per word. *)
Definition spacy_doc (words : list string) : list Token :=
  imap (fun i w => {| text := w; pos_ := pos_tagger words i |}) words.

(** *** gen_instances_from_segment *)

(** The body of [for i, word in enumerate(tokens)]; [out] collects the
    instances yielded so far. *)
Definition verb_step (words : list string) (tokens : list Token)
    (out : list Instance) (iw : nat * Token) : result (list Instance) :=
  let '(i, word) := iw in
  if String.eqb (pos_ word) "VERB" then
    let verb_labels := map (fun _ => 0) words in
    let! verb_labels := setitem verb_labels i 1 in
    let instance := text_to_instance tokens verb_labels in
    Ok (out ++ [instance])
  else Ok out.

Definition gen_instances_from_segment (seg : string) : result (list Instance) :=
  let words := split seg in
  let tokens := spacy_doc words in
  for_each (verb_step words tokens) (enumerate tokens) [].

(** *** gen_instances *)

Definition segment_step (out : list Instance) (segment : string)
  : result (list Instance) :=
  let instances := gen_instances_from_segment segment in
  if negb (generator_truthy instances) then Ok out
  else let! ys := instances in Ok (out ++ ys).

Definition utterance_step (out : list Instance) (u : list string)
  : result (list Instance) :=
  let words_string := join " " u in
  let segments := segment words_string in
  for_each segment_step segments out.

Definition gen_instances : result (list Instance) :=
  for_each utterance_step utterances [].

(** *** The module-level loop *)

(** The inner [while len(batch) < BATCH_SIZE] loop. [it] is what the
    iterator has left; the result is the batch, the rest of the iterator
    and [outer_loop]. *)
Fixpoint fill_batch (batch it : list Instance) (outer_loop : bool)
  : list Instance * list Instance * bool :=
  if length batch <? BATCH_SIZE then
    match it with
    | [] => (batch, [], false)
    | instance :: it' => fill_batch (batch ++ [instance]) it' outer_loop
    end
  else (batch, it, outer_loop).

(** [input(...)]: reads one line, [EOFError] at the end of input. *)
Definition input (st : State) : result (string * State) :=
  match keys st with
  | [] => Raise EOFError
  | key :: rest =>
      Ok (key, {| num_no_verb := num_no_verb st; lines := lines st; keys := rest |})
  end.

(** The body of [for d in res]. *)
Definition process_prediction (st : State) (d : Prediction) : result State :=
  let tags := tags d in
  let words := words d in
  if negb (contains tags "B-V") then
    Ok {| num_no_verb := num_no_verb st + 1; lines := lines st; keys := keys st |}
  else
    let! verb_index := index tags "B-V" in
    let x_string := join " " words in
    let y_string := join " " tags in
    let line := format_line verb_index x_string y_string in
    let! st :=
      (if INTERACTIVE then
         let! ks := input st in
         let '(key, st') := ks in
         if negb (String.eqb key "q") then Ok st'
         else Raise (SystemExit "Quit")
       else Ok st) in
    Ok {| num_no_verb := num_no_verb st; lines := lines st ++ [line]; keys := keys st |}.

(** One turn of [while outer_loop] after the batch is filled: the call of
    the predictor, the loop over its predictions and
    [progress_bar.update()]. *)
Definition batch_turn (progress_bar : ProgBar) (st : State) (batch : list Instance)
  : result (State * ProgBar) :=
  let res := forward_on_instances batch in
  let! st' := for_each process_prediction res st in
  let! progress_bar' := progress_bar_update progress_bar in
  Ok (st', progress_bar').

(** [while outer_loop]. One unit of [fuel] is spent per batch; [None] means
    the fuel ran out before the loop ended. The result holds the batches
    handed to the predictor, in order, and how the loop ended. *)
Fixpoint main_loop (fuel : nat) (progress_bar : ProgBar) (st : State)
    (it : list Instance) : option (list (list Instance) * result State) :=
  match fuel with
  | 0 => None
  | S fuel' =>
      let '(batch, it', outer_loop) := fill_batch [] it true in
      match batch_turn progress_bar st batch with
      | Raise e => Some ([batch], Raise e)
      | Ok (st', progress_bar') =>
          if outer_loop then
            match main_loop fuel' progress_bar' st' it' with
            | None => None
            | Some (sent, r) => Some (batch :: sent, r)
            end
          else Some ([batch], Ok st')
      end
  end.

(** The batches the loop forms, in order, when no turn raises. *)
Fixpoint batches (fuel : nat) (it : list Instance) : list (list Instance) :=
  match fuel with
  | 0 => []
  | S fuel' =>
      let '(batch, it', outer_loop) := fill_batch [] it true in
      batch :: (if outer_loop then batches fuel' it' else [])
  end.

Definition init_state (stdin : list string) : State :=
  {| num_no_verb := 0; lines := []; keys := stdin |}.

(** The whole script: the batches handed to the predictor and, when no
    call raised, the final state of the loop and the content written to the
    corpus file. When a call raises the file is not opened. *)
Definition script (stdin : list string)
  : option (list (list Instance) * result (State * string)) :=
  match gen_instances with
  | Raise e => Some ([], Raise e)
  | Ok it =>
      match new_progress_bar (length utterances / BATCH_SIZE) with
      | Raise e => Some ([], Raise e)
      | Ok progress_bar =>
          match main_loop (S (length it)) progress_bar (init_state stdin) it with
          | None => None
          | Some (sent, Raise e) => Some (sent, Raise e)
          | Some (sent, Ok st) => Some (sent, Ok (st, write_lines (lines st)))
          end
      end
  end.

(** The batches the loop of the script forms when no turn raises. *)
Definition predictor_inputs : list (list Instance) :=
  match gen_instances with
  | Raise _ => []
  | Ok it => batches (S (length it)) it
  end.

(** *** What the claims are stated against *)

Definition is_verb (it : nat * Token) : bool := String.eqb (pos_ (snd it)) "VERB".

(** The positions of the tokens tagged ['VERB'], in token order. *)
Definition verb_positions (tokens : list Token) : list nat :=
  map fst (List.filter is_verb (enumerate tokens)).

(** A vector of [n] labels, all 0 but a 1 at position [i]. *)
Definition verb_labels_at (n i : nat) : list nat := <[i:=1]> (replicate n 0).

(** The instances of one segment, one for each verb position. *)
Definition instances_of_segment (seg : string) : list Instance :=
  let words := split seg in
  let tokens := spacy_doc words in
  map (fun i => text_to_instance tokens (verb_labels_at (length words) i))
      (verb_positions tokens).

(** The predictions whose tag list holds ['B-V'], and the others. *)
Definition verb_predictions (l : list Prediction) : list Prediction :=
  filter (fun d => "B-V" ∈ tags d) l.

Definition no_verb_predictions (l : list Prediction) : list Prediction :=
  filter (fun d => "B-V" ∉ tags d) l.

(** The line made for a prediction that has a ['B-V'] tag. *)
Definition srl_line (d : Prediction) : string :=
  match index (tags d) "B-V" with
  | Ok verb_index => format_line verb_index (join " " (words d)) (join " " (tags d))
  | Raise _ => EmptyString
  end.

(** The state after the loop body ran on each prediction of [preds]. *)
Definition after (st : State) (preds : list Prediction) : State :=
  {| num_no_verb := num_no_verb st + length (no_verb_predictions preds);
     lines := lines st ++ map srl_line (verb_predictions preds);
     keys := keys st |}.

(** *** gen_instances_from_segment: proofs *)

Lemma map_const_replicate {A : Type} (l : list A) :
  map (fun _ => 0) l = replicate (length l) 0.
Proof. induction l as [|x l IH]; simpl; [reflexivity | now rewrite IH]. Qed.

Lemma spacy_doc_length ws : length (spacy_doc ws) = length ws.
Proof. unfold spacy_doc. apply length_imap. Qed.

Lemma enumerate_from_fst_ge {A : Type} (l : list A) k i x :
  In (i, x) (enumerate_from k l) -> k <= i.
Proof.
  revert k. induction l as [|y l IH]; simpl; intros k H; [contradiction |].
  destruct H as [H | H].
  - inversion H; lia.
  - apply IH in H. lia.
Qed.

Lemma enumerate_from_lookup {A : Type} (l : list A) k i x :
  In (i, x) (enumerate_from k l) <-> k <= i /\ l !! (i - k) = Some x.
Proof.
  revert k. induction l as [|y l IH]; simpl; intros k.
  - split; [contradiction | intros [_ H]; discriminate].
  - rewrite IH. split.
    + intros [H | [Hk Hl]].
      * inversion H; subst. split; [lia |]. now rewrite Nat.sub_diag.
      * split; [lia |]. replace (i - k) with (S (i - S k)) by lia. exact Hl.
    + intros [Hk Hl]. destruct (decide (i = k)) as [-> | Hne].
      * left. rewrite Nat.sub_diag in Hl. simpl in Hl. congruence.
      * right. split; [lia |].
        replace (i - k) with (S (i - S k)) in Hl by lia. exact Hl.
Qed.

Lemma verb_positions_from_sorted (l : list Token) k :
  StronglySorted lt (map fst (List.filter is_verb (enumerate_from k l))).
Proof.
  revert k. induction l as [|t l IH]; intros k; simpl; [constructor |].
  destruct (is_verb (k, t)); simpl; [| apply IH].
  constructor; [apply IH |].
  apply List.Forall_forall. intros i Hi.
  apply in_map_iff in Hi as [[j x] [<- Hj]].
  apply filter_In in Hj as [Hj _].
  apply enumerate_from_fst_ge in Hj. simpl. lia.
Qed.

Lemma verb_positions_sorted tokens : StronglySorted lt (verb_positions tokens).
Proof. apply verb_positions_from_sorted. Qed.

Lemma verb_positions_spec tokens i :
  In i (verb_positions tokens)
  <-> exists tok, tokens !! i = Some tok /\ pos_ tok = "VERB".
Proof.
  unfold verb_positions, enumerate. rewrite in_map_iff. split.
  - intros [[j tok] [Hj Hin]]. simpl in Hj. subst j.
    apply filter_In in Hin as [Hin Hv].
    apply enumerate_from_lookup in Hin as [_ Hl].
    rewrite Nat.sub_0_r in Hl. exists tok. split; [exact Hl |].
    now apply String.eqb_eq in Hv.
  - intros [tok [Hl Hv]]. exists (i, tok). split; [reflexivity |].
    apply filter_In. split.
    + apply enumerate_from_lookup. rewrite Nat.sub_0_r. split; [lia | exact Hl].
    + unfold is_verb. simpl. now apply String.eqb_eq.
Qed.

Lemma verb_loop_from (ws : list string) (tokens l : list Token) k out :
  k + length l <= length ws ->
  for_each (verb_step ws tokens) (enumerate_from k l) out
  = Ok (out ++ map (fun i => text_to_instance tokens (verb_labels_at (length ws) i))
                   (map fst (List.filter is_verb (enumerate_from k l)))).
Proof.
  revert k out. induction l as [|t l IH]; intros k out Hk; simpl.
  - now rewrite app_nil_r.
  - simpl in Hk. unfold is_verb at 1. simpl.
    destruct (String.eqb (pos_ t) "VERB") eqn:Hv.
    + unfold setitem. rewrite length_map.
      assert (Hlt : (k <? length ws) = true) by (apply Nat.ltb_lt; lia).
      rewrite Hlt. simpl. rewrite IH by lia.
      rewrite map_const_replicate. unfold verb_labels_at.
      now rewrite <- app_assoc.
    + simpl. apply IH. lia.
Qed.

Lemma gen_instances_from_segment_ok seg :
  gen_instances_from_segment seg = Ok (instances_of_segment seg).
Proof.
  unfold gen_instances_from_segment, instances_of_segment, enumerate.
  rewrite verb_loop_from; [reflexivity |].
  rewrite spacy_doc_length. simpl. lia.
Qed.

Lemma verb_labels_at_length n i : length (verb_labels_at n i) = n.
Proof. unfold verb_labels_at. now rewrite length_insert, length_replicate. Qed.

Lemma verb_labels_at_lookup n i j :
  i < n -> j < n ->
  verb_labels_at n i !! j = Some (if Nat.eqb j i then 1 else 0).
Proof.
  intros Hi Hj. unfold verb_labels_at.
  destruct (Nat.eqb_spec j i) as [-> | Hne].
  - apply list_lookup_insert_eq. now rewrite length_replicate.
  - rewrite list_lookup_insert_ne by congruence.
    now apply lookup_replicate_2.
Qed.

(** C5. For every segment, [gen_instances_from_segment] yields, without
    raising, exactly one instance for each token whose POS tag is ['VERB'],
    in token order; the instance of the token at position [i] is built from
    a [verb_labels] vector with as many entries as the segment has words,
    holding 1 at position [i] and 0 everywhere else. *)
Theorem gen_instances_from_segment_one_per_verb (seg : string) :
  let words := split seg in
  let tokens := spacy_doc words in
  exists (positions : list nat) (verb_labels : nat -> list nat),
    StronglySorted lt positions
    /\ (forall i, In i positions
                  <-> exists tok, tokens !! i = Some tok /\ pos_ tok = "VERB")
    /\ gen_instances_from_segment seg
       = Ok (map (fun i => text_to_instance tokens (verb_labels i)) positions)
    /\ (forall i, In i positions ->
          length (verb_labels i) = length words
          /\ verb_labels i !! i = Some 1
          /\ forall j, j < length words -> j <> i -> verb_labels i !! j = Some 0).
Proof.
  intros ws tokens.
  exists (verb_positions tokens), (verb_labels_at (length ws)).
  split; [apply verb_positions_sorted |].
  split; [apply verb_positions_spec |].
  split; [apply gen_instances_from_segment_ok |].
  intros i Hi.
  assert (Hlt : i < length ws).
  { apply verb_positions_spec in Hi as [tok [Hl _]].
    apply lookup_lt_Some in Hl. unfold tokens in Hl.
    now rewrite spacy_doc_length in Hl. }
  split; [apply verb_labels_at_length |].
  split.
  - rewrite verb_labels_at_lookup by assumption. now rewrite Nat.eqb_refl.
  - intros j Hj Hne. rewrite verb_labels_at_lookup by assumption.
    destruct (Nat.eqb_spec j i); [contradiction | reflexivity].
Qed.

(** *** gen_instances: proofs *)

Lemma segment_loop segs out :
  for_each segment_step segs out = Ok (out ++ flat_map instances_of_segment segs).
Proof.
  revert out. induction segs as [|seg segs IH]; intros out; simpl.
  - now rewrite app_nil_r.
  - unfold segment_step at 1. simpl.
    rewrite gen_instances_from_segment_ok. simpl.
    rewrite IH. now rewrite <- app_assoc.
Qed.

Lemma utterance_loop us out :
  for_each utterance_step us out
  = Ok (out ++ flat_map (fun u => flat_map instances_of_segment (segment (join " " u))) us).
Proof.
  revert out. induction us as [|u us IH]; intros out; simpl.
  - now rewrite app_nil_r.
  - unfold utterance_step at 1. rewrite segment_loop. simpl.
    rewrite IH. now rewrite <- app_assoc.
Qed.

Lemma gen_instances_ok :
  gen_instances
  = Ok (flat_map (fun u => flat_map instances_of_segment (segment (join " " u)))
                 utterances).
Proof. unfold gen_instances. now rewrite utterance_loop. Qed.

(** *** The batches *)

Lemma BATCH_SIZE_pos : 0 < BATCH_SIZE.
Proof. unfold BATCH_SIZE. lia. Qed.

Lemma fill_batch_nil batch ol :
  fill_batch batch [] ol
  = if length batch <? BATCH_SIZE then (batch, [], false) else (batch, [], ol).
Proof. reflexivity. Qed.

Lemma fill_batch_cons batch x it ol :
  fill_batch batch (x :: it) ol
  = if length batch <? BATCH_SIZE then fill_batch (batch ++ [x]) it ol
    else (batch, x :: it, ol).
Proof. reflexivity. Qed.

Lemma fill_batch_spec it : forall batch b it' ol,
  length batch <= BATCH_SIZE ->
  fill_batch batch it true = (b, it', ol) ->
  batch ++ it = b ++ it'
  /\ length b <= BATCH_SIZE
  /\ (ol = true -> length b = BATCH_SIZE)
  /\ (ol = false -> it' = []).
Proof.
  induction it as [|x it IH]; intros batch b it' ol Hle H.
  - rewrite fill_batch_nil in H.
    destruct (Nat.ltb_spec (length batch) BATCH_SIZE); inversion H; subst;
      repeat split; auto; try discriminate; intros _; lia.
  - rewrite fill_batch_cons in H.
    destruct (Nat.ltb_spec (length batch) BATCH_SIZE) as [Hlt | Hge].
    + apply IH in H; [| rewrite length_app; simpl; lia].
      destruct H as (Happ & Hb & Ht & Hf).
      rewrite <- app_assoc in Happ. simpl in Happ. auto.
    + inversion H; subst. repeat split; auto; try discriminate. intros _; lia.
Qed.

Lemma batches_concat fuel : forall it,
  length it < fuel -> concat (batches fuel it) = it.
Proof.
  induction fuel as [|fuel IH]; intros it Hf; [lia |].
  cbn [batches].
  destruct (fill_batch [] it true) as [[b it'] ol] eqn:Hfb.
  apply fill_batch_spec in Hfb as (Happ & Hb & Ht & Hfalse); [| simpl; lia].
  simpl in Happ. subst it. destruct ol; simpl.
  - rewrite IH; [reflexivity |].
    rewrite length_app in Hf. specialize (Ht eq_refl).
    pose proof BATCH_SIZE_pos. lia.
  - rewrite (Hfalse eq_refl). reflexivity.
Qed.

Lemma batches_bounded fuel : forall it,
  List.Forall (fun b => length b <= BATCH_SIZE) (batches fuel it).
Proof.
  induction fuel as [|fuel IH]; intros it; [constructor |].
  cbn [batches].
  destruct (fill_batch [] it true) as [[b it'] ol] eqn:Hfb.
  apply fill_batch_spec in Hfb as (_ & Hb & _ & _); [| simpl; lia].
  constructor; [exact Hb |]. destruct ol; [apply IH | constructor].
Qed.

Lemma predictor_inputs_concat :
  gen_instances = Ok (concat predictor_inputs).
Proof.
  unfold predictor_inputs. rewrite gen_instances_ok.
  rewrite batches_concat by lia. reflexivity.
Qed.

(** C6. [gen_instances] yields, without raising, for every utterance of the
    corpus in order, the instances of each segment that the segmentation
    model returns for the utterance's words joined by single spaces, segment
    after segment. So every instance of every batch handed to the SRL
    predictor is an instance of a segment of some utterance. *)
Theorem gen_instances_from_segments_of_utterances :
  exists per_segment : string -> list Instance,
    (forall seg, gen_instances_from_segment seg = Ok (per_segment seg))
    /\ gen_instances
       = Ok (flat_map (fun u => flat_map per_segment (segment (join " " u)))
                      utterances)
    /\ (forall batch inst,
          In batch predictor_inputs -> In inst batch ->
          exists u seg,
            In u utterances /\ In seg (segment (join " " u))
            /\ In inst (per_segment seg)).
Proof.
  exists instances_of_segment.
  split; [apply gen_instances_from_segment_ok |].
  split; [apply gen_instances_ok |].
  intros batch inst Hb Hi.
  assert (Hin : In inst (concat predictor_inputs)).
  { apply in_concat. exists batch. auto. }
  pose proof predictor_inputs_concat as Hc.
  rewrite gen_instances_ok in Hc. inversion Hc as [Heq].
  rewrite <- Heq in Hin.
  apply in_flat_map in Hin as [u [Hu Hin]].
  apply in_flat_map in Hin as [seg [Hs Hin]].
  exists u, seg. auto.
Qed.

(** *** The loop over the predictions *)

Lemma contains_elem_of (l : list string) x : contains l x = true <-> x ∈ l.
Proof.
  unfold contains. rewrite existsb_exists, list_elem_of_In. split.
  - intros [y [Hy He]]. apply String.eqb_eq in He. now subst.
  - intros H. exists x. split; [exact H | apply String.eqb_refl].
Qed.

Lemma index_first (l : list string) x :
  x ∈ l ->
  exists i, index l x = Ok i /\ l !! i = Some x
            /\ forall j, j < i -> l !! j <> Some x.
Proof.
  induction l as [|y l IH]; intros H.
  - apply elem_of_nil in H. contradiction.
  - simpl. destruct (String.eqb_spec y x) as [-> | Hne].
    + exists 0. repeat split. intros j Hj. lia.
    + apply elem_of_cons in H as [-> | H]; [contradiction |].
      destruct (IH H) as (i & Hi & Hl & Hfirst).
      exists (S i). rewrite Hi. simpl. repeat split; [exact Hl |].
      intros [|j] Hj; simpl; [congruence | apply Hfirst; lia].
Qed.

Lemma process_prediction_no_verb st d :
  "B-V" ∉ tags d ->
  process_prediction st d
  = Ok {| num_no_verb := num_no_verb st + 1; lines := lines st; keys := keys st |}.
Proof.
  intros H. unfold process_prediction.
  destruct (contains (tags d) "B-V") eqn:Hc; [| reflexivity].
  apply contains_elem_of in Hc. contradiction.
Qed.

Lemma process_prediction_verb st d :
  "B-V" ∈ tags d ->
  process_prediction st d
  = Ok {| num_no_verb := num_no_verb st; lines := lines st ++ [srl_line d];
          keys := keys st |}.
Proof.
  intros H. unfold process_prediction, srl_line.
  pose proof H as Hc. apply contains_elem_of in Hc. rewrite Hc.
  destruct (index_first _ _ H) as (i & Hi & _). rewrite Hi. reflexivity.
Qed.

Lemma after_nil st : after st [] = st.
Proof.
  destruct st. unfold after. simpl. f_equal; [lia | apply app_nil_r].
Qed.

Lemma after_app st l1 l2 : after st (l1 ++ l2) = after (after st l1) l2.
Proof.
  unfold after, verb_predictions, no_verb_predictions. simpl.
  rewrite !filter_app, !map_app, !length_app. f_equal; [lia | apply app_assoc].
Qed.

Lemma after_verb st d :
  "B-V" ∈ tags d ->
  after st [d]
  = {| num_no_verb := num_no_verb st; lines := lines st ++ [srl_line d];
       keys := keys st |}.
Proof.
  intros Hv. unfold after, verb_predictions, no_verb_predictions.
  rewrite (filter_cons_True (fun d => "B-V" ∈ tags d)) by exact Hv.
  rewrite (filter_cons_False (fun d => "B-V" ∉ tags d))
    by (intros Hn; apply Hn; exact Hv).
  simpl. f_equal. lia.
Qed.

Lemma after_no_verb st d :
  "B-V" ∉ tags d ->
  after st [d]
  = {| num_no_verb := num_no_verb st + 1; lines := lines st; keys := keys st |}.
Proof.
  intros Hv. unfold after, verb_predictions, no_verb_predictions.
  rewrite (filter_cons_False (fun d => "B-V" ∈ tags d)) by exact Hv.
  rewrite (filter_cons_True (fun d => "B-V" ∉ tags d)) by exact Hv.
  simpl. f_equal. apply app_nil_r.
Qed.

Lemma process_all preds : forall st,
  for_each process_prediction preds st = Ok (after st preds).
Proof.
  induction preds as [|d preds IH]; intros st.
  - simpl. now rewrite after_nil.
  - cbn [for_each]. change (d :: preds) with ([d] ++ preds).
    rewrite after_app. destruct (decide ("B-V" ∈ tags d)) as [Hv | Hv].
    + rewrite process_prediction_verb, after_verb by exact Hv. apply IH.
    + rewrite process_prediction_no_verb, after_no_verb by exact Hv. apply IH.
Qed.

Lemma batch_turn_spec progress_bar st batch :
  batch_turn progress_bar st batch
  = let! progress_bar' := progress_bar_update progress_bar in
    Ok (after st (forward_on_instances batch), progress_bar').
Proof. unfold batch_turn. rewrite process_all. reflexivity. Qed.

Lemma main_loop_spec fuel : forall it progress_bar st,
  length it < fuel ->
  exists sent r,
    main_loop fuel progress_bar st it = Some (sent, r)
    /\ (exists rest, batches fuel it = sent ++ rest)
    /\ sent <> []
    /\ match r with
       | Ok st' =>
           sent = batches fuel it
           /\ st' = after st (flat_map forward_on_instances sent)
       | Raise e => exists pb, progress_bar_update pb = Raise e
       end.
Proof.
  induction fuel as [|fuel IH]; intros it pb st Hf; [lia |].
  cbn [main_loop batches].
  destruct (fill_batch [] it true) as [[b it'] ol] eqn:Hfb.
  apply fill_batch_spec in Hfb as (Happ & Hb & Ht & Hfalse); [| simpl; lia].
  rewrite batch_turn_spec.
  destruct (progress_bar_update pb) as [pb' | e] eqn:Hu; cbn [bind].
  - destruct ol.
    + destruct (IH it' pb' (after st (forward_on_instances b)))
        as (sent & r & Hm & [rest Hpre] & Hne & Hr).
      { simpl in Happ. subst it. rewrite length_app in Hf.
        specialize (Ht eq_refl). pose proof BATCH_SIZE_pos. lia. }
      rewrite Hm. exists (b :: sent), r.
      split; [reflexivity |].
      split; [exists rest; now rewrite Hpre |].
      split; [discriminate |].
      destruct r as [st' | e]; [| exact Hr].
      destruct Hr as [Hs Hst]. split; [now rewrite Hs |].
      cbn [flat_map]. now rewrite after_app.
    + exists [b], (Ok (after st (forward_on_instances b))).
      split; [reflexivity |].
      split; [exists []; reflexivity |].
      split; [discriminate |].
      split; [reflexivity |].
      cbn [flat_map]. now rewrite app_nil_r.
  - exists [b], (Raise e).
    split; [reflexivity |].
    split; [exists (if ol then batches fuel it' else []); reflexivity |].
    split; [discriminate |]. eauto.
Qed.

(** *** The corpus file *)

Lemma string_app_assoc (a b c : string) : (a +:+ b) +:+ c = a +:+ (b +:+ c).
Proof.
  induction a as [|x a IH]; [reflexivity |].
  change (String x ((a +:+ b) +:+ c) = String x (a +:+ (b +:+ c))).
  now rewrite IH.
Qed.

Lemma string_app_empty_r (a : string) : a +:+ EmptyString = a.
Proof.
  induction a as [|x a IH]; [reflexivity |].
  change (String x (a +:+ EmptyString) = String x a).
  now rewrite IH.
Qed.

Lemma write_lines_from (ls : list string) : forall f,
  fold_left (fun f line => f +:+ (line +:+ newline)) ls f
  = f +:+ newline_terminated ls.
Proof.
  induction ls as [|l ls IH]; intros f; simpl.
  - now rewrite string_app_empty_r.
  - rewrite IH. now rewrite !string_app_assoc.
Qed.


Lemma script_spec stdin :
  exists sent outcome,
    script stdin = Some (sent, outcome)
    /\ (exists rest, predictor_inputs = sent ++ rest)
    /\ match outcome with
       | Ok (st, file) =>
           sent = predictor_inputs
           /\ st = after (init_state stdin) (flat_map forward_on_instances sent)
           /\ file = write_lines (lines st)
       | Raise e =>
           (sent = []
            /\ new_progress_bar (length utterances / BATCH_SIZE) = Raise e)
           \/ (sent <> [] /\ exists pb, progress_bar_update pb = Raise e)
       end.
Proof.
  unfold script, predictor_inputs. rewrite gen_instances_ok.
  set (it := flat_map _ utterances).
  destruct (new_progress_bar (length utterances / BATCH_SIZE)) as [pb | e] eqn:Hn.
  - destruct (main_loop_spec (S (length it)) it pb (init_state stdin))
      as (sent & r & Hm & Hpre & Hne & Hr); [lia |].
    rewrite Hm. destruct r as [st | e].
    + exists sent, (Ok (st, write_lines (lines st))).
      split; [reflexivity |]. split; [exact Hpre |].
      destruct Hr as [Hs Hst]. auto.
    + exists sent, (Raise e).
      split; [reflexivity |]. split; [exact Hpre |]. right. auto.
  - exists [], (Raise e).
    split; [reflexivity |]. split; [eexists; reflexivity |]. left. auto.
Qed.

Lemma script_returns stdin sent st file :
  script stdin = Some (sent, Ok (st, file)) ->
  sent = predictor_inputs
  /\ st = after (init_state stdin) (flat_map forward_on_instances sent)
  /\ file = write_lines (lines st).
Proof.
  intros H. destruct (script_spec stdin) as (sent' & outcome & Hs & _ & Hout).
  rewrite Hs in H. inversion H; subst. exact Hout.
Qed.







(** *** Segments without verbs, counts and batch sizes *)

Lemma verb_count_from (l : list Token) : forall k,
  length (List.filter is_verb (enumerate_from k l))
  = length (List.filter (fun tok => String.eqb (pos_ tok) "VERB") l).
Proof.
  induction l as [|t l IH]; intros k; [reflexivity |].
  cbn [enumerate_from List.filter]. unfold is_verb at 1. cbn [snd].
  destruct (String.eqb (pos_ t) "VERB"); cbn [length]; now rewrite IH.
Qed.

(** X7. [gen_instances_from_segment] yields nothing exactly when no token of
    the segment is tagged ['VERB']; this covers the empty segment and the
    segment made of white space only. *)
Theorem gen_instances_from_segment_no_verb (seg : string) :
  gen_instances_from_segment seg = Ok []
  <-> List.Forall (fun tok => pos_ tok <> "VERB") (spacy_doc (split seg)).
Proof.
  rewrite gen_instances_from_segment_ok. unfold instances_of_segment.
  rewrite List.Forall_forall. split.
  - intros H tok Hin Hv. inversion H as [Hmap].
    apply map_eq_nil in Hmap.
    apply list_elem_of_In, list_elem_of_lookup in Hin as [i Hi].
    assert (Hp : In i (verb_positions (spacy_doc (split seg)))).
    { apply verb_positions_spec. eauto. }
    rewrite Hmap in Hp. contradiction.
  - intros H. f_equal.
    destruct (verb_positions (spacy_doc (split seg))) as [|i l] eqn:Hp;
      [reflexivity |].
    assert (Hi : In i (verb_positions (spacy_doc (split seg))))
      by (rewrite Hp; now left).
    apply verb_positions_spec in Hi as [tok [Hl Hv]].
    exfalso. apply (H tok); [| exact Hv].
    apply list_elem_of_In, list_elem_of_lookup. eauto.
Qed.

(** X8. The number of instances [gen_instances_from_segment] yields is the
    number of tokens tagged ['VERB'], so it is at most the number of words
    of the segment. *)
Theorem gen_instances_from_segment_count (seg : string) :
  exists yielded,
    gen_instances_from_segment seg = Ok yielded
    /\ length yielded
       = length (List.filter (fun tok => String.eqb (pos_ tok) "VERB")
                             (spacy_doc (split seg)))
    /\ length yielded <= length (split seg).
Proof.
  exists (instances_of_segment seg).
  split; [apply gen_instances_from_segment_ok |].
  assert (Hc : length (instances_of_segment seg)
               = length (List.filter (fun tok => String.eqb (pos_ tok) "VERB")
                                     (spacy_doc (split seg)))).
  { unfold instances_of_segment, verb_positions, enumerate.
    rewrite !length_map. apply verb_count_from. }
  split; [exact Hc |]. rewrite Hc.
  rewrite <- (spacy_doc_length (split seg)). apply List.filter_length_le.
Qed.

Lemma fill_batch_last it : forall batch b it',
  fill_batch batch it true = (b, it', false) -> length b < BATCH_SIZE.
Proof.
  induction it as [|x it IH]; intros batch b it' H.
  - rewrite fill_batch_nil in H.
    destruct (Nat.ltb_spec (length batch) BATCH_SIZE); inversion H; subst; lia.
  - rewrite fill_batch_cons in H.
    destruct (Nat.ltb_spec (length batch) BATCH_SIZE); [| discriminate].
    eapply IH. exact H.
Qed.

Lemma batches_shape fuel : forall it,
  length it < fuel ->
  exists full last,
    batches fuel it = full ++ [last]
    /\ List.Forall (fun b => length b = BATCH_SIZE) full
    /\ length last < BATCH_SIZE.
Proof.
  induction fuel as [|fuel IH]; intros it Hf; [lia |].
  cbn [batches].
  destruct (fill_batch [] it true) as [[b it'] ol] eqn:Hfb.
  pose proof Hfb as Hspec.
  apply fill_batch_spec in Hspec as (Happ & Hb & Ht & Hfalse); [| simpl; lia].
  destruct ol.
  - destruct (IH it') as (full & last & Hbs & Hfull & Hlast).
    { simpl in Happ. subst it. rewrite length_app in Hf.
      specialize (Ht eq_refl). pose proof BATCH_SIZE_pos. lia. }
    exists (b :: full), last. rewrite Hbs. repeat split; auto.
  - exists [], b. repeat split; auto. eapply fill_batch_last. exact Hfb.
Qed.

Lemma concat_full_length {A : Type} (full : list (list A)) n :
  List.Forall (fun b => length b = n) full ->
  length (concat full) = n * length full.
Proof.
  induction 1 as [|b full Hb _ IH]; simpl; [lia |].
  rewrite length_app, IH, Hb. lia.
Qed.

Lemma predictor_inputs_full_and_last :
  exists instances full last,
    gen_instances = Ok instances
    /\ predictor_inputs = full ++ [last]
    /\ concat full ++ last = instances
    /\ List.Forall (fun b => length b = BATCH_SIZE) full
    /\ length full = length instances / BATCH_SIZE
    /\ length last = length instances mod BATCH_SIZE.
Proof.
  pose proof predictor_inputs_concat as Hc.
  destruct (batches_shape (S (length (concat predictor_inputs)))
                          (concat predictor_inputs))
    as (full & last & Hbs & Hfull & Hlast); [lia |].
  assert (Hpi : predictor_inputs = full ++ [last]).
  { rewrite <- Hbs. unfold predictor_inputs at 1. now rewrite Hc. }
  exists (concat predictor_inputs), full, last.
  split; [exact Hc |]. split; [exact Hpi |].
  assert (Hcat : concat full ++ last = concat predictor_inputs).
  { rewrite Hpi, concat_app. simpl. now rewrite app_nil_r. }
  split; [exact Hcat |]. split; [exact Hfull |].
  assert (Hlen : length (concat predictor_inputs)
                 = BATCH_SIZE * length full + length last).
  { rewrite <- Hcat, length_app. now rewrite (concat_full_length full BATCH_SIZE). }
  split.
  - apply (Nat.div_unique _ _ _ (length last)); [exact Hlast | exact Hlen].
  - apply (Nat.mod_unique _ _ (length full)); [exact Hlast | exact Hlen].
Qed.

(** X9. The loop forms [n / BATCH_SIZE] batches of exactly [BATCH_SIZE]
    instances and then one last batch of the [n mod BATCH_SIZE] instances
    that are left, where [n] is the number of instances; the last batch is
    empty when [n] is a multiple of [BATCH_SIZE]. The batches handed to the
    predictor in a run are the first of these, and all of them when the
    script ends without an exception. *)
Theorem predictor_inputs_shape (stdin : list string) :
  exists instances full last sent outcome,
    gen_instances = Ok instances
    /\ predictor_inputs = full ++ [last]
    /\ concat full ++ last = instances
    /\ List.Forall (fun b => length b = BATCH_SIZE) full
    /\ length full = length instances / BATCH_SIZE
    /\ length last = length instances mod BATCH_SIZE
    /\ script stdin = Some (sent, outcome)
    /\ (exists rest, predictor_inputs = sent ++ rest)
    /\ (forall r, outcome = Ok r -> sent = predictor_inputs).
Proof.
  destruct predictor_inputs_full_and_last
    as (instances & full & last & Hg & Hpi & Hcat & Hfull & Hdiv & Hmod).
  destruct (script_spec stdin) as (sent & outcome & Hs & Hpre & Hout).
  exists instances, full, last, sent, outcome.
  repeat (split; [assumption |]).
  intros [st file] ->. now destruct Hout as [Hsent _].
Qed.

Lemma filter_complement_length (l : list Prediction) :
  length (no_verb_predictions l) + length (verb_predictions l) = length l.
Proof.
  unfold no_verb_predictions, verb_predictions.
  induction l as [|d l IH]; [reflexivity |].
  destruct (decide ("B-V" ∈ tags d)) as [Hv | Hv].
  - rewrite (filter_cons_True (fun d => "B-V" ∈ tags d)) by exact Hv.
    rewrite (filter_cons_False (fun d => "B-V" ∉ tags d))
      by (intros Hn; apply Hn; exact Hv).
    simpl. lia.
  - rewrite (filter_cons_False (fun d => "B-V" ∈ tags d)) by exact Hv.
    rewrite (filter_cons_True (fun d => "B-V" ∉ tags d)) by exact Hv.
    simpl. lia.
Qed.

(** X10. Every prediction is either counted in [num_no_verb] or gives a
    line: when the script ends without an exception, the counter plus the
    number of lines is the number of predictions the predictor returned. *)
Theorem script_accounts_for_every_prediction
    (stdin : list string) (sent : list (list Instance)) (st : State)
    (file : string) :
  script stdin = Some (sent, Ok (st, file)) ->
  num_no_verb st + length (lines st)
  = length (flat_map forward_on_instances sent).
Proof.
  intros H. apply script_returns in H as (_ & -> & _).
  simpl. rewrite length_map. apply filter_complement_length.
Qed.

(** X21. When the first [progress_bar.update()] raises, the script stops
    with that exception after a single call of the predictor, and the
    corpus file is not written. *)
Theorem script_stops_when_progress_bar_raises
    (stdin : list string) (progress_bar : ProgBar) (e : exn) :
  new_progress_bar (length utterances / BATCH_SIZE) = Ok progress_bar ->
  progress_bar_update progress_bar = Raise e ->
  exists batch, script stdin = Some ([batch], Raise e).
Proof.
  intros Hn Hu. unfold script. rewrite gen_instances_ok, Hn.
  cbn [main_loop].
  destruct (fill_batch [] _ true) as [[b it'] ol].
  rewrite batch_turn_spec, Hu. cbn [bind]. eauto.
Qed.

(** X11. Writing the lines of two lists one after the other gives the two
    file contents one after the other. *)
Theorem write_lines_app (l1 l2 : list string) :
  write_lines (l1 ++ l2) = write_lines l1 +:+ write_lines l2.
Proof.
  unfold write_lines. rewrite fold_left_app, !write_lines_from.
  reflexivity.
Qed.

End Script.

(** *** A run on a small corpus *)

Module Demo.

Definition pos_tagger (ws : list string) (i : nat) : string :=
  match ws !! i with
  | Some w => if String.eqb w "want" || String.eqb w "see" then "VERB" else "NOUN"
  | None => "X"
  end.

Definition Instance : Type := list Token * list nat.

Definition segment (s : string) : list string := [s].

(** Tags the marked verb ['B-V'] and the rest ['O']; leaves out the verb
    of the word [see]. *)
Definition tag_instance (inst : Instance) : Prediction :=
  let '(toks, labels) := inst in
  {| tags := map (fun tl : Token * nat =>
                    if Nat.eqb (snd tl) 1 && negb (String.eqb (text (fst tl)) "see")
                    then "B-V" else "O")
                 (zip toks labels);
     words := map text toks |}.

Definition utterances : list (list string) :=
  [["you"; "want"; "it"]; ["look"]; ["i"; "see"]; ["we"; "want"; "to"; "see"]].

(** A progress bar that, like pyprind's, computes the fraction
    [cnt / max_iter] at every update: a bar made for 0 iterations raises
    [ZeroDivisionError] at its first update. *)
Record ProgBar : Type := { max_iter : nat; cnt : nat }.

Definition new_progress_bar (iterations : nat) : result ProgBar :=
  Ok {| max_iter := iterations; cnt := 0 |}.

Definition progress_bar_update (progress_bar : ProgBar) : result ProgBar :=
  if max_iter progress_bar =? 0 then Raise ZeroDivisionError
  else Ok {| max_iter := max_iter progress_bar; cnt := cnt progress_bar + 1 |}.

Definition run_on (corpus : list (list string))
  : option (list (list Instance) * result (State * string)) :=
  script pos_tagger Instance pair segment (map tag_instance) corpus
         ProgBar new_progress_bar progress_bar_update [].

(** Four utterances: fewer than [BATCH_SIZE]. *)
Definition run := run_on utterances.

(** The four utterances 32 times over: 128 utterances and 128 instances. *)
Definition big_corpus : list (list string) := concat (replicate 32 utterances).

Definition big_run := run_on big_corpus.

Definition big_sent : list (list Instance) :=
  match big_run with
  | Some (sent, _) => sent
  | None => []
  end.

Definition big_state : State :=
  match big_run with
  | Some (_, Ok (st, _)) => st
  | _ => init_state []
  end.

Definition big_file : string :=
  match big_run with
  | Some (_, Ok (_, file)) => file
  | _ => EmptyString
  end.

End Demo.

Example demo_instances :
  gen_instances_from_segment Demo.pos_tagger Demo.Instance pair "we want to see"
  = Ok [ (spacy_doc Demo.pos_tagger ["we"; "want"; "to"; "see"], [0; 1; 0; 0]);
         (spacy_doc Demo.pos_tagger ["we"; "want"; "to"; "see"], [0; 0; 0; 1]) ].
Proof. reflexivity. Qed.

(** With four utterances the bar is made for [4 // 128 = 0] iterations:
    the run stops at the first update, after one call of the predictor. *)
Example demo_run :
  option_map snd Demo.run = Some (Raise ZeroDivisionError)
  /\ option_map (fun r => length (fst r)) Demo.run = Some 1.
Proof. vm_compute. split; reflexivity. Qed.

Example demo_big_run :
  Demo.big_run = Some (Demo.big_sent, Ok (Demo.big_state, Demo.big_file))
  /\ map (@length Demo.Instance) Demo.big_sent = [128; 0]
  /\ num_no_verb Demo.big_state = 64
  /\ length (lines Demo.big_state) = 64
  /\ firstn 2 (lines Demo.big_state)
     = ["1 you want it ||| O B-V O"; "1 we want to see ||| O B-V O O"].
Proof. vm_compute. repeat split; reflexivity. Qed.



Lemma script_accounts_for_every_prediction_witness :
  num_no_verb Demo.big_state + length (lines Demo.big_state)
  = length (flat_map (map Demo.tag_instance) Demo.big_sent).
Proof.
  apply (script_accounts_for_every_prediction
           Demo.pos_tagger Demo.Instance pair Demo.segment
           (map Demo.tag_instance) Demo.big_corpus
           Demo.ProgBar Demo.new_progress_bar Demo.progress_bar_update []
           Demo.big_sent Demo.big_state Demo.big_file).
  vm_compute. reflexivity.
Defined.

Lemma script_stops_when_progress_bar_raises_witness :
  exists batch, Demo.run = Some ([batch], Raise ZeroDivisionError).
Proof.
  apply (script_stops_when_progress_bar_raises
           Demo.pos_tagger Demo.Instance pair Demo.segment
           (map Demo.tag_instance) Demo.utterances
           Demo.ProgBar Demo.new_progress_bar Demo.progress_bar_update []
           {| Demo.max_iter := 0; Demo.cnt := 0 |} ZeroDivisionError).
  - reflexivity.
  - reflexivity.
Defined.

(** When the number of instances is a multiple of [BATCH_SIZE] the last
    batch handed to the predictor is empty. *)
Example batches_of_full_batch :
  batches nat (S BATCH_SIZE) (seq 0 BATCH_SIZE) = [seq 0 BATCH_SIZE; []].
Proof. vm_compute. reflexivity. Qed.

Example split_ex : split "  you   want it " = ["you"; "want"; "it"].
Proof. reflexivity. Qed.

Example make_srl_string_ex1 :
  make_srl_string ["you"; "want"; "the"; "ball"; "now"]
                  ["B-ARG0"; "B-V"; "B-ARG1"; "I-ARG1"; "O"]
  = "[ARG0: you] [V: want] [ARG1: the ball] now".
Proof. reflexivity. Qed.

Example make_srl_string_ex2 :
  make_srl_string ["a"; "b"; "c"] ["B-A"; "X"; "I-A"] = "[A: a] [c]".
Proof. reflexivity. Qed.

(** *** Properties of make_srl_string *)

(** [w in s] for two strings: [w] occurs in [s] as a substring. *)
Fixpoint occurs_in (w s : string) : bool :=
  String.prefix w s
  || match s with
     | EmptyString => false
     | String _ s' => occurs_in w s'
     end.

(** C9, as written, fails: the first word below has the tag ['X'], which is
    neither ['O'] nor starts with ['B-'] or ['I-'], and yet its text occurs
    in the result, copied from the second word. *)
Lemma make_srl_string_dropped_word_occurs :
  length ["zzz"; "zzz"] = length ["X"; "O"]
  /\ ["zzz"; "zzz"] !! 0 = Some "zzz"
  /\ ["X"; "O"] !! 0 = Some "X"
  /\ emitted_tag "X" = false
  /\ make_srl_string ["zzz"; "zzz"] ["X"; "O"] = "zzz"
  /\ occurs_in "zzz" (make_srl_string ["zzz"; "zzz"] ["X"; "O"]) = true.
Proof. repeat split. Qed.

Lemma srl_step_ignores_word st w w' t :
  emitted_tag t = false -> srl_step st (w, t) = srl_step st (w', t).
Proof.
  unfold emitted_tag, srl_step. intros H.
  apply orb_false_iff in H as [H HO].
  apply orb_false_iff in H as [HI HB].
  rewrite HI, HB, HO. reflexivity.
Qed.

Lemma fold_srl_step_agree words words' tags st :
  length words = length tags ->
  length words' = length tags ->
  (forall i w w' t,
      words !! i = Some w -> words' !! i = Some w' -> tags !! i = Some t ->
      emitted_tag t = true -> w = w') ->
  fold_left srl_step (zip words tags) st
  = fold_left srl_step (zip words' tags) st.
Proof.
  revert words' tags st.
  induction words as [|w words IH]; intros [|w' words'] [|t tags] st Hl Hl' Hag;
    cbn [length] in Hl, Hl'; try discriminate; try reflexivity.
  cbn [zip_with fold_left].
  assert (Hst : srl_step st (w, t) = srl_step st (w', t)).
  { destruct (emitted_tag t) eqn:Et.
    - rewrite (Hag 0 w w' t); auto.
    - apply srl_step_ignores_word; assumption. }
  rewrite Hst. apply IH; [lia | lia |].
  intros i a a' b Ha Ha' Hb. apply (Hag (S i)); assumption.
Qed.

(** C9. For word and tag lists of equal length, the string returned by
    [make_srl_string] is built only from the words whose tag is ['O'] or
    starts with ['B-'] or ['I-']: a word under any other tag is never
    copied to the output, so two word lists that agree at every position
    carrying such a tag give the same string. *)
Theorem make_srl_string_only_emitted_words (words words' tags : list string) :
  length words = length tags ->
  length words' = length tags ->
  (forall i w w' t,
      words !! i = Some w -> words' !! i = Some w' -> tags !! i = Some t ->
      emitted_tag t = true -> w = w') ->
  make_srl_string words tags = make_srl_string words' tags.
Proof.
  intros Hl Hl' Hag. unfold make_srl_string.
  rewrite (fold_srl_step_agree words words' tags); auto.
Qed.

Lemma make_srl_string_only_emitted_words_witness :
  make_srl_string ["look"; "zzz"; "at"; "it"] ["B-V"; "X"; "B-ARG1"; "I-ARG1"]
  = make_srl_string ["look"; "qqq"; "at"; "it"] ["B-V"; "X"; "B-ARG1"; "I-ARG1"].
Proof.
  apply make_srl_string_only_emitted_words; [reflexivity | reflexivity |].
  intros i w w' t.
  destruct i as [|[|[|[|i]]]]; simpl; intros Hw Hw' Ht He;
    try congruence.
  inversion Ht; subst. vm_compute in He. discriminate.
Defined.

(** *** Utterances and segments *)

(** A string without white space, and a word: such a string that is not
    empty. *)
Fixpoint no_space (w : string) : bool :=
  match w with
  | EmptyString => true
  | String c w' => negb (isspace c) && no_space w'
  end.

Definition is_word (w : string) : bool :=
  match w with
  | EmptyString => false
  | String _ _ => no_space w
  end.

Lemma join_cons_cons sep (x y : string) l :
  join sep (x :: y :: l) = x +:+ sep +:+ join sep (y :: l).
Proof. reflexivity. Qed.

Lemma split_from_no_space (w : string) : forall cur rest,
  no_space w = true ->
  split_from cur (w +:+ rest) = split_from (cur +:+ w) rest.
Proof.
  induction w as [|c w IH]; intros cur rest Hw.
  - now rewrite string_app_empty_r.
  - cbn [no_space] in Hw. apply andb_true_iff in Hw as [Hc Hw].
    apply negb_true_iff in Hc.
    change (String c w +:+ rest) with (String c (w +:+ rest)).
    cbn [split_from]. rewrite Hc. rewrite IH by exact Hw.
    now rewrite string_app_assoc.
Qed.

Lemma split_from_end (cur : string) :
  cur <> EmptyString -> split_from cur EmptyString = [cur].
Proof. destruct cur; [contradiction | reflexivity]. Qed.

Lemma split_from_space (cur rest : string) :
  cur <> EmptyString ->
  split_from cur (" " +:+ rest) = cur :: split_from EmptyString rest.
Proof. destruct cur; [contradiction | reflexivity]. Qed.

Lemma is_word_inv (w : string) :
  is_word w = true -> w <> EmptyString /\ no_space w = true.
Proof. destruct w; [discriminate | intros H; split; [discriminate | exact H]]. Qed.

Lemma split_join (u : list string) :
  List.Forall (fun w => is_word w = true) u -> split (join " " u) = u.
Proof.
  unfold split. induction 1 as [|w u Hw Hu IH]; [reflexivity |].
  apply is_word_inv in Hw as [Hne Hns].
  destruct u as [|w' u].
  - cbn [join String.concat].
    rewrite <- (string_app_empty_r w) at 1.
    rewrite split_from_no_space by exact Hns.
    now apply split_from_end.
  - rewrite join_cons_cons.
    rewrite split_from_no_space by exact Hns.
    cbn [String.append]. rewrite split_from_space by exact Hne.
    now rewrite IH.
Qed.

(** X12. When the words of an utterance are not empty and hold no white
    space, and the segmentation model returns the joined utterance as its
    only segment, the tokens handed to the tagger are the words of the
    utterance: one instance is yielded for each of its words tagged
    ['VERB']. *)
Theorem utterance_step_one_segment
    (pos_tagger : list string -> nat -> string) (Instance : Type)
    (text_to_instance : list Token -> list nat -> Instance)
    (segment : string -> list string) (out : list Instance) (u : list string) :
  List.Forall (fun w => is_word w = true) u ->
  segment (join " " u) = [join " " u] ->
  utterance_step pos_tagger Instance text_to_instance segment out u
  = Ok (out ++ map (fun i => text_to_instance (spacy_doc pos_tagger u)
                                              (verb_labels_at (length u) i))
                   (verb_positions (spacy_doc pos_tagger u))).
Proof.
  intros Hu Hseg. unfold utterance_step. rewrite Hseg.
  rewrite segment_loop. cbn [flat_map]. rewrite app_nil_r.
  unfold instances_of_segment. now rewrite split_join.
Qed.

Lemma utterance_step_one_segment_witness :
  utterance_step Demo.pos_tagger Demo.Instance pair Demo.segment []
                 ["you"; "want"; "it"]
  = Ok ([] ++ map (fun i => (spacy_doc Demo.pos_tagger ["you"; "want"; "it"],
                             verb_labels_at (length ["you"; "want"; "it"]) i))
                  (verb_positions (spacy_doc Demo.pos_tagger ["you"; "want"; "it"]))).
Proof.
  apply (utterance_step_one_segment Demo.pos_tagger Demo.Instance pair
           Demo.segment [] ["you"; "want"; "it"]).
  - repeat constructor.
  - reflexivity.
Defined.

(** X13. Utterances are processed one after the other and independently:
    the instances of a corpus made of two parts are the instances of the
    first part followed by the instances of the second. *)
Theorem gen_instances_app
    (pos_tagger : list string -> nat -> string) (Instance : Type)
    (text_to_instance : list Token -> list nat -> Instance)
    (segment : string -> list string) (us1 us2 : list (list string)) :
  exists l1 l2,
    gen_instances pos_tagger Instance text_to_instance segment us1 = Ok l1
    /\ gen_instances pos_tagger Instance text_to_instance segment us2 = Ok l2
    /\ gen_instances pos_tagger Instance text_to_instance segment (us1 ++ us2)
       = Ok (l1 ++ l2).
Proof.
  eexists. eexists.
  split; [apply gen_instances_ok |].
  split; [apply gen_instances_ok |].
  rewrite gen_instances_ok. now rewrite flat_map_app.
Qed.

(** *** make_srl_string: tag patterns, lengths and composition *)

(** The list [frame] that [make_srl_string] joins at its end. *)
Definition srl_frame (words tags : list string) : list string :=
  fst (flush (fold_left srl_step (zip words tags) ([], []))).

Lemma make_srl_string_frame words tags :
  make_srl_string words tags = join " " (srl_frame words tags).
Proof.
  unfold make_srl_string, srl_frame.
  destruct (flush (fold_left srl_step (zip words tags) ([], []))) as [frame chunk].
  reflexivity.
Qed.

Lemma fold_srl_step_all_O (ws : list string) : forall n frame,
  fold_left srl_step (zip ws (replicate n "O")) (frame, [])
  = (frame ++ take n ws, []).
Proof.
  induction ws as [|w ws IH]; intros n frame.
  - destruct n; cbn; now rewrite app_nil_r.
  - destruct n as [|n]; [cbn; now rewrite app_nil_r |].
    cbn [replicate zip_with fold_left take].
    change (srl_step (frame, []) (w, "O")) with (frame ++ [w], @nil string).
    rewrite IH. now rewrite <- app_assoc.
Qed.

Lemma fold_srl_step_all_I (ws : list string) : forall ts frame chunk,
  length ws = length ts ->
  List.Forall (fun t => startswith t "I-" = true) ts ->
  fold_left srl_step (zip ws ts) (frame, chunk) = (frame, chunk ++ ws).
Proof.
  induction ws as [|w ws IH]; intros [|t ts] frame chunk Hl Hall;
    cbn [length] in Hl; try discriminate.
  - cbn. now rewrite app_nil_r.
  - inversion Hall as [|t' ts' Ht Hts]; subst.
    cbn [zip_with fold_left]. unfold srl_step at 2. rewrite Ht.
    rewrite IH by (auto; lia). now rewrite <- app_assoc.
Qed.

Lemma fold_srl_step_none_emitted (ws : list string) : forall ts st,
  List.Forall (fun t => emitted_tag t = false) ts ->
  fold_left srl_step (zip ws ts) st
  = match zip ws ts with [] => st | _ => flush st end.
Proof.
  induction ws as [|w ws IH]; intros [|t ts] st Hall; try reflexivity.
  inversion Hall as [|t' ts' Ht Hts]; subst.
  cbn [zip_with fold_left]. rewrite IH by exact Hts.
  unfold emitted_tag in Ht.
  apply orb_false_iff in Ht as [Ht HO].
  apply orb_false_iff in Ht as [HI HB].
  assert (Hstep : srl_step st (w, t) = flush st).
  { unfold srl_step. rewrite HI. destruct (flush st) as [frame chunk].
    now rewrite HB, HO. }
  rewrite Hstep.
  assert (Hidem : flush (flush st) = flush st).
  { destruct st as [frame [|c chunk]]; reflexivity. }
  destruct (zip_with pair ws ts); [reflexivity | exact Hidem].
Qed.

Lemma fold_srl_step_frame_prefix (l : list (string * string)) :
  forall pre frame chunk,
    fold_left srl_step l (pre ++ frame, chunk)
    = (pre ++ fst (fold_left srl_step l (frame, chunk)),
       snd (fold_left srl_step l (frame, chunk))).
Proof.
  induction l as [|[w t] l IH]; intros pre frame chunk; [reflexivity |].
  cbn [fold_left].
  assert (Hstep : srl_step (pre ++ frame, chunk) (w, t)
                  = (pre ++ fst (srl_step (frame, chunk) (w, t)),
                     snd (srl_step (frame, chunk) (w, t)))).
  { unfold srl_step, flush.
    destruct (startswith t "I-"); [reflexivity |].
    destruct (truthy chunk), (startswith t "B-"), (String.eqb t "O");
      cbn [fst snd]; rewrite <- ?app_assoc; reflexivity. }
  rewrite Hstep.
  destruct (srl_step (frame, chunk) (w, t)) as [frame' chunk'].
  cbn [fst snd]. apply IH.
Qed.

Lemma flush_frame_prefix pre frame chunk :
  flush (pre ++ frame, chunk)
  = (pre ++ fst (flush (frame, chunk)), snd (flush (frame, chunk))).
Proof.
  unfold flush. destruct (truthy chunk); cbn [fst snd];
    rewrite <- ?app_assoc; reflexivity.
Qed.

Lemma srl_step_after_flush st w t :
  startswith t "I-" = false -> srl_step (flush st) (w, t) = srl_step st (w, t).
Proof.
  intros HI. unfold srl_step. rewrite HI.
  assert (Hidem : flush (flush st) = flush st).
  { destruct st as [frame [|c chunk]]; reflexivity. }
  now rewrite Hidem.
Qed.

(** X1. When every tag is ['O'] the result is the words joined by single
    spaces; words beyond the number of tags are left out. *)
Theorem make_srl_string_all_O (words : list string) (n : nat) :
  make_srl_string words (replicate n "O") = join " " (take n words).
Proof.
  unfold make_srl_string. rewrite fold_srl_step_all_O. reflexivity.
Qed.

(** X2. [zip] stops at the shorter list: the words without a tag and the
    tags without a word have no effect on the result. *)
Theorem make_srl_string_truncates (words tags : list string) :
  make_srl_string words tags
  = make_srl_string (take (length tags) words) (take (length words) tags).
Proof.
  assert (Hz : zip words tags
               = zip (take (length tags) words) (take (length words) tags)).
  { revert tags. induction words as [|w ws IH]; intros [|t ts]; try reflexivity.
    cbn [length take zip_with]. f_equal. apply IH. }
  unfold make_srl_string. now rewrite <- Hz.
Qed.

(** X3. A ['B-'] tag followed only by ['I-'] tags gives one bracketed span
    that starts with the label of the ['B-'] tag; the labels of the ['I-']
    tags are not looked at. *)
Theorem make_srl_string_one_span (label w : string) (ws its : list string) :
  length ws = length its ->
  List.Forall (fun t => startswith t "I-" = true) its ->
  make_srl_string (w :: ws) (("B-" +:+ label) :: its)
  = "[" +:+ label +:+ ": " +:+ join " " (w :: ws) +:+ "]".
Proof.
  intros Hl Hall. unfold make_srl_string. cbn [zip_with fold_left].
  assert (Hstep : srl_step ([], []) (w, "B-" +:+ label)
                  = ([], [label +:+ ": " +:+ w])).
  { unfold srl_step, startswith.
    change (String.prefix "I-" ("B-" +:+ label)) with false.
    replace (String.prefix "B-" ("B-" +:+ label)) with true
      by (destruct label; reflexivity).
    reflexivity. }
  rewrite Hstep.
  rewrite fold_srl_step_all_I by assumption.
  cbn [app flush truthy]. unfold bracket, join.
  destruct ws as [|w' ws]; cbn [String.concat].
  - now rewrite !string_app_assoc.
  - now rewrite !string_app_assoc.
Qed.

Lemma make_srl_string_one_span_witness :
  make_srl_string ["the"; "red"; "ball"] ["B-ARG1"; "I-ARG1"; "I-ARG0"]
  = "[ARG1: the red ball]".
Proof.
  apply (make_srl_string_one_span "ARG1" "the" ["red"; "ball"] ["I-ARG1"; "I-ARG0"]).
  - reflexivity.
  - repeat constructor.
Defined.

(** X4. Cutting the input in front of a tag that does not start with
    ['I-'] cuts the result: the frame of the whole is the frame of the first
    part followed by the frame of the second. *)
Theorem make_srl_string_app (ws1 ws2 ts1 ts2 : list string) :
  length ws1 = length ts1 ->
  match ts2 with [] => True | t :: _ => startswith t "I-" = false end ->
  make_srl_string (ws1 ++ ws2) (ts1 ++ ts2)
  = join " " (srl_frame ws1 ts1 ++ srl_frame ws2 ts2).
Proof.
  intros Hl Hcut. rewrite make_srl_string_frame. f_equal. unfold srl_frame.
  rewrite zip_with_app by exact Hl. rewrite fold_left_app.
  destruct (fold_left srl_step (zip ws1 ts1) ([], [])) as [frame chunk] eqn:H1.
  destruct ws2 as [|w ws2]; [ | destruct ts2 as [|t ts2] ].
  - cbn [zip_with fold_left]. cbn. now rewrite app_nil_r.
  - rewrite zip_with_nil_r. cbn. now rewrite app_nil_r.
  - cbn [zip_with fold_left].
    rewrite <- (srl_step_after_flush (frame, chunk)) by exact Hcut.
    destruct (flush (frame, chunk)) as [frame' chunk'] eqn:Hf.
    assert (Hc : chunk' = []).
    { unfold flush in Hf. destruct chunk; inversion Hf; reflexivity. }
    subst chunk'. cbn [fst].
    rewrite <- (app_nil_r frame') at 1.
    assert (Hstep : srl_step (frame' ++ [], []) (w, t)
                    = (frame' ++ fst (srl_step ([], []) (w, t)),
                       snd (srl_step ([], []) (w, t)))).
    { apply (fold_srl_step_frame_prefix [(w, t)]). }
    rewrite Hstep.
    destruct (srl_step ([], []) (w, t)) as [f0 c0]. cbn [fst snd].
    rewrite fold_srl_step_frame_prefix.
    destruct (fold_left srl_step (zip_with pair ws2 ts2) (f0, c0)) as [f1 c1].
    cbn [fst snd]. rewrite flush_frame_prefix. reflexivity.
Qed.

Lemma make_srl_string_app_witness :
  make_srl_string (["you"; "want"] ++ ["the"; "ball"])
                  (["B-ARG0"; "B-V"] ++ ["B-ARG1"; "I-ARG1"])
  = join " " (srl_frame ["you"; "want"] ["B-ARG0"; "B-V"]
              ++ srl_frame ["the"; "ball"] ["B-ARG1"; "I-ARG1"]).
Proof.
  apply make_srl_string_app; reflexivity.
Defined.

(** X5. ['I-'] tags with no ['B-'] tag in front still open a span: when
    every tag starts with ['I-'] the result is all the words in one pair of
    brackets, without a label. *)
Theorem make_srl_string_all_I (words tags : list string) :
  words <> [] ->
  length words = length tags ->
  List.Forall (fun t => startswith t "I-" = true) tags ->
  make_srl_string words tags = "[" +:+ join " " words +:+ "]".
Proof.
  intros Hne Hl Hall. unfold make_srl_string.
  rewrite fold_srl_step_all_I by assumption.
  destruct words as [|w ws]; [contradiction |]. reflexivity.
Qed.

Lemma make_srl_string_all_I_witness :
  make_srl_string ["red"; "ball"] ["I-ARG1"; "I-ARG1"] = "[red ball]".
Proof.
  apply (make_srl_string_all_I ["red"; "ball"] ["I-ARG1"; "I-ARG1"]).
  - discriminate.
  - reflexivity.
  - repeat constructor.
Defined.

(** X6. When no tag is ['O'] or starts with ['B-'] or ['I-'], the result is
    the empty string, whatever the words are. *)
Theorem make_srl_string_none_emitted (words tags : list string) :
  List.Forall (fun t => emitted_tag t = false) tags ->
  make_srl_string words tags = "".
Proof.
  intros Hall. unfold make_srl_string.
  rewrite fold_srl_step_none_emitted by exact Hall.
  destruct (zip words tags); reflexivity.
Qed.

Lemma make_srl_string_none_emitted_witness :
  make_srl_string ["um"; "uh"] ["X"; "b-arg0"] = "".
Proof.
  apply make_srl_string_none_emitted. repeat constructor.
Defined.

End AddSrlTags.

(** ** babybertsrl/eval.py *)

Module Eval.

(** [params]: only [batch_size] is read. *)
Record Params : Type := { batch_size : Z }.

(** An entry of [batch['metadata']]. *)
Record Metadata : Type := {
  verb_index : option nat;
  words : list string;
  gold_tags : list string
}.

Section Loops.

(** torch tensors: [len(t)], [torch.exp(t)], [t + u], [n + t] for an [int]
    [n], and [t / n] for an [int] [n]. *)
Variable Tensor : Type.
Variable tensor_len : Tensor -> nat.
Variable texp : Tensor -> Tensor.
Variable tadd : Tensor -> Tensor -> Tensor.
Variable radd_int : Z -> Tensor -> Tensor.
Variable tdiv_int : Tensor -> Z -> Tensor.

(** A batch, a dictionary of tensors and metadata: [batch['lm_tags']],
    [batch['tags']] and [batch['metadata']]. *)
Variable Batch : Type.
Variable lm_tags : Batch -> Tensor.
Variable tags : Batch -> Tensor.
Variable metadata : Batch -> list Metadata.

(** [bucket_batcher(instances, num_epochs=n)]: the batches of [n] epochs. *)
Variable Instances : Type.
Variable bucket_batcher : Instances -> nat -> list Batch.

(** The model in evaluation mode: the call of [model] on a batch,
    [output_dict['loss']]
    and [model.decode(output_dict).pop("tags")]. *)
Variable OutputDict : Type.
Variable model : Batch -> OutputDict.
Variable loss : OutputDict -> Tensor.
Variable decode_tags : OutputDict -> list (list string).

(** [babybertsrl.scorer]: the scorer object, a call of it on a batch,
    [get_metric(reset=...)] and the conversion of BIO tags. *)
Variable SrlEvalScorer : Type.
Variable Score : Type.
Variable new_scorer : string -> list string -> SrlEvalScorer.
Variable scorer_call :
  SrlEvalScorer -> list (option nat) -> list (list string) ->
  list (list string) -> list (list string) -> SrlEvalScorer.
Variable get_metric : SrlEvalScorer -> bool -> gmap string Score * SrlEvalScorer.
Variable convert_bio_tags_to_conll_format : list string -> list string.

(** *** evaluate_model_on_pp *)

(** The value of [pp_sum]: the [int] it starts as, or a tensor. *)
Inductive number : Type :=
| PyInt (z : Z)
| PyTensor (t : Tensor).

(** The value of [pp_sum / num_steps]: the float quotient of two [int]s, or
    a tensor. *)
Inductive quotient : Type :=
| FloatQuot (a b : Z)
| TensorQuot (t : Tensor).

(** [pp_sum += pp] *)
Definition iadd (pp_sum : number) (pp : Tensor) : number :=
  match pp_sum with
  | PyInt z => PyTensor (radd_int z pp)
  | PyTensor s => PyTensor (tadd s pp)
  end.

(** [pp_sum / num_steps]: dividing an [int] by 0 raises; dividing a tensor
    never does. *)
Definition truediv (pp_sum : number) (num_steps : Z) : result quotient :=
  match pp_sum with
  | PyInt z =>
      if Z.eqb num_steps 0 then Raise ZeroDivisionError
      else Ok (FloatQuot z num_steps)
  | PyTensor s => Ok (TensorQuot (tdiv_int s num_steps))
  end.

(** The body of the loop; the state is [(pp_sum, num_steps)]. *)
Definition pp_step (params : Params) (st : number * Z) (batch : Batch)
  : number * Z :=
  let '(pp_sum, num_steps) := st in
  if negb (Z.eqb (Z.of_nat (tensor_len (lm_tags batch))) (batch_size params))
  then st
  else
    let output_dict := model batch in
    let pp := texp (loss output_dict) in
    (iadd pp_sum pp, (num_steps + 1)%Z).

Definition pp_loop (params : Params) (instances_generator : list Batch)
  : number * Z :=
  fold_left (pp_step params) instances_generator (PyInt 0, 0%Z).

Definition evaluate_model_on_pp (params : Params) (instances : Instances)
  : result quotient :=
  let instances_generator := bucket_batcher instances 1 in
  let '(pp_sum, num_steps) := pp_loop params instances_generator in
  truediv pp_sum num_steps.

(** *** evaluate_model_on_f1 *)

(** One call of the span metric on a batch. *)
Definition update_metric (span_metric : SrlEvalScorer) (batch : Batch)
  : SrlEvalScorer :=
  let output_dict := model batch in
  let metadata := metadata batch in
  let batch_verb_indices := map verb_index metadata in
  let batch_sentences := map words metadata in
  let batch_bio_predicted_tags := decode_tags output_dict in
  let batch_conll_predicted_tags :=
    map convert_bio_tags_to_conll_format batch_bio_predicted_tags in
  let batch_bio_gold_tags := map gold_tags metadata in
  let batch_conll_gold_tags :=
    map convert_bio_tags_to_conll_format batch_bio_gold_tags in
  scorer_call span_metric batch_verb_indices batch_sentences
              batch_conll_predicted_tags batch_conll_gold_tags.

(** The body of the loop; the state is [span_metric]. *)
Definition f1_step (params : Params) (span_metric : SrlEvalScorer) (batch : Batch)
  : SrlEvalScorer :=
  if negb (Z.eqb (Z.of_nat (tensor_len (tags batch))) (batch_size params))
  then span_metric
  else update_metric span_metric batch.

Definition evaluate_model_on_f1 (params : Params) (srl_eval_path : string)
    (instances : Instances) : result Score :=
  let span_metric := new_scorer srl_eval_path ["V"] in
  let instances_generator := bucket_batcher instances 1 in
  let span_metric := fold_left (f1_step params) instances_generator span_metric in
  let '(metric_dict, _) := get_metric span_metric true in
  match metric_dict !! "f1-measure-overall" with
  | Some f1 => Ok f1
  | None => Raise (KeyError "f1-measure-overall")
  end.

(** *** What the claims are stated against *)

(** The batches of [bs] whose tensor [key batch] has [batch_size] rows. *)
Definition full_size (params : Params) (key : Batch -> Tensor) (bs : list Batch)
  : list Batch :=
  filter (fun b => Z.of_nat (tensor_len (key b)) = batch_size params) bs.

(** [sum(ts)]: the [int] 0 plus each tensor in turn. *)
Definition tensor_sum (ts : list Tensor) : number := fold_left iadd ts (PyInt 0).

(** The perplexity of one batch: [torch.exp(output_dict['loss'])]. *)
Definition perplexity (batch : Batch) : Tensor := texp (loss (model batch)).

(** *** evaluate_model_on_pp: proofs *)

Lemma pp_loop_from (params : Params) (bs : list Batch) : forall pp_sum num_steps,
  fold_left (pp_step params) bs (pp_sum, num_steps)
  = (fold_left iadd (map perplexity (full_size params lm_tags bs)) pp_sum,
     (num_steps + Z.of_nat (length (full_size params lm_tags bs)))%Z).
Proof.
  induction bs as [|b bs IH]; intros pp_sum num_steps.
  - simpl. f_equal. lia.
  - cbn [fold_left]. unfold pp_step at 2. unfold full_size.
    destruct (Z.eqb_spec (Z.of_nat (tensor_len (lm_tags b))) (batch_size params))
      as [Heq | Hne]; cbn [negb].
    + rewrite IH.
      rewrite (filter_cons_True
                 (fun b => Z.of_nat (tensor_len (lm_tags b)) = batch_size params))
        by exact Heq.
      unfold full_size, perplexity. cbn [map fold_left length]. f_equal. lia.
    + rewrite IH.
      rewrite (filter_cons_False
                 (fun b => Z.of_nat (tensor_len (lm_tags b)) = batch_size params))
        by exact Hne.
      reflexivity.
Qed.

Lemma pp_loop_spec (params : Params) (bs : list Batch) :
  pp_loop params bs
  = (tensor_sum (map perplexity (full_size params lm_tags bs)),
     Z.of_nat (length (full_size params lm_tags bs))).
Proof. unfold pp_loop. rewrite pp_loop_from. reflexivity. Qed.

Lemma iadd_tensor (ts : list Tensor) : forall s,
  exists s', fold_left iadd ts (PyTensor s) = PyTensor s'.
Proof.
  induction ts as [|t ts IH]; intros s; simpl; [eauto | apply IH].
Qed.

Lemma tensor_sum_nonempty (t : Tensor) (ts : list Tensor) :
  exists s, tensor_sum (t :: ts) = PyTensor s.
Proof. unfold tensor_sum. simpl. apply iadd_tensor. Qed.

Lemma iadd_fold (ts : list Tensor) : forall s,
  fold_left iadd ts (PyTensor s) = PyTensor (fold_left tadd ts s).
Proof.
  induction ts as [|t ts IH]; intros s; [reflexivity |].
  cbn [fold_left iadd]. apply IH.
Qed.

(** C2. [evaluate_model_on_pp] returns the arithmetic mean of [exp(loss)]
    over the batches it processes, which are exactly the batches of the one
    generated epoch whose ['lm_tags'] has [params.batch_size] rows: with
    perplexities [pp1, ..., ppn] of these batches, in order, it returns
    [(0 + pp1 + ... + ppn) / n], computed with the addition and division of
    torch. With no such batch there is no mean, and the division raises. *)
Theorem evaluate_model_on_pp_mean (params : Params) (instances : Instances) :
  evaluate_model_on_pp params instances
  = match map (fun batch => texp (loss (model batch)))
              (full_size params lm_tags (bucket_batcher instances 1)) with
    | [] => Raise ZeroDivisionError
    | pp :: pps =>
        Ok (TensorQuot (tdiv_int (fold_left tadd pps (radd_int 0 pp))
                                 (Z.of_nat (length (pp :: pps)))))
    end.
Proof.
  unfold evaluate_model_on_pp. rewrite pp_loop_spec.
  destruct (full_size params lm_tags (bucket_batcher instances 1)) as [|b bs].
  - reflexivity.
  - unfold tensor_sum, perplexity. cbn [map fold_left iadd].
    rewrite iadd_fold. cbn [truediv length]. now rewrite length_map.
Qed.

(** C8. [evaluate_model_on_pp] divides the accumulated sum by the number of
    processed batches. That number is the number of batches whose
    ['lm_tags'] has [params.batch_size] rows; when there is none the final
    division raises [ZeroDivisionError], and the function returns a value
    exactly when there is at least one. *)
Theorem evaluate_model_on_pp_needs_full_batch
    (params : Params) (instances : Instances) :
  let processed := full_size params lm_tags (bucket_batcher instances 1) in
  exists pp_sum num_steps,
    pp_loop params (bucket_batcher instances 1) = (pp_sum, num_steps)
    /\ evaluate_model_on_pp params instances = truediv pp_sum num_steps
    /\ num_steps = Z.of_nat (length processed)
    /\ (processed = [] <->
        evaluate_model_on_pp params instances = Raise ZeroDivisionError)
    /\ (processed <> [] <->
        exists v, evaluate_model_on_pp params instances = Ok v).
Proof.
  intros processed. eexists. eexists.
  split; [apply pp_loop_spec |].
  split; [unfold evaluate_model_on_pp; now rewrite pp_loop_spec |].
  split; [reflexivity |].
  unfold evaluate_model_on_pp. rewrite pp_loop_spec. fold processed.
  destruct processed as [|b bs].
  - cbn [map length]. unfold tensor_sum. cbn [fold_left truediv Z.of_nat Z.eqb].
    split.
    + split; [reflexivity | reflexivity].
    + split; [intros H; now contradiction H |].
      intros [v Hv]. discriminate Hv.
  - destruct (tensor_sum_nonempty (perplexity b) (map perplexity bs)) as [s Hs].
    cbn [map]. rewrite Hs. cbn [truediv]. split.
    + split; intros H; discriminate H.
    + split; [intros _; eauto | intros _ H; discriminate H].
Qed.

(** *** evaluate_model_on_f1: proofs *)

Lemma f1_loop_spec (params : Params) (bs : list Batch) : forall span_metric,
  fold_left (f1_step params) bs span_metric
  = fold_left update_metric (full_size params tags bs) span_metric.
Proof.
  induction bs as [|b bs IH]; intros span_metric; [reflexivity |].
  cbn [fold_left]. unfold f1_step at 2. unfold full_size.
  destruct (Z.eqb_spec (Z.of_nat (tensor_len (tags b))) (batch_size params))
    as [Heq | Hne]; cbn [negb].
  - rewrite (filter_cons_True
               (fun b => Z.of_nat (tensor_len (tags b)) = batch_size params))
      by exact Heq.
    cbn [fold_left]. apply IH.
  - rewrite (filter_cons_False
               (fun b => Z.of_nat (tensor_len (tags b)) = batch_size params))
      by exact Hne.
    apply IH.
Qed.

(** C3. [evaluate_model_on_f1] returns the ['f1-measure-overall'] entry of
    the metric of a scorer (made with [ignore_classes=["V"]]) that was
    called once, in order, on each batch of the one epoch whose ['tags'] has
    [params.batch_size] rows and on no other batch. Each call receives the
    verb indices and sentences of the batch metadata, the tags decoded by
    the model and the gold tags of the metadata, both converted from BIO to
    CoNLL format sequence by sequence. *)
Theorem evaluate_model_on_f1_span_metric
    (params : Params) (srl_eval_path : string) (instances : Instances) :
  let processed := full_size params tags (bucket_batcher instances 1) in
  let accumulate span_metric batch :=
    scorer_call span_metric
      (map verb_index (metadata batch))
      (map words (metadata batch))
      (map convert_bio_tags_to_conll_format (decode_tags (model batch)))
      (map convert_bio_tags_to_conll_format (map gold_tags (metadata batch))) in
  let span_metric :=
    fold_left accumulate processed (new_scorer srl_eval_path ["V"]) in
  evaluate_model_on_f1 params srl_eval_path instances
  = match fst (get_metric span_metric true) !! "f1-measure-overall" with
    | Some f1 => Ok f1
    | None => Raise (KeyError "f1-measure-overall")
    end.
Proof.
  intros processed accumulate span_metric.
  unfold evaluate_model_on_f1. rewrite f1_loop_spec.
  fold processed. change update_metric with accumulate. fold span_metric.
  destruct (get_metric span_metric true) as [metric_dict m]. reflexivity.
Qed.

(** *** Edge cases of the two loops *)

Lemma full_size_negative (params : Params) (key : Batch -> Tensor) (bs : list Batch) :
  (batch_size params < 0)%Z -> full_size params key bs = [].
Proof.
  intros Hneg. unfold full_size. induction bs as [|b bs IH]; [reflexivity |].
  rewrite (filter_cons_False
             (fun b => Z.of_nat (tensor_len (key b)) = batch_size params)) by lia.
  exact IH.
Qed.

(** X14. When [evaluate_model_on_pp] returns, what it returns is a tensor,
    never a Python float: the accumulated tensor divided by the number of
    processed batches. *)
Theorem evaluate_model_on_pp_returns_tensor
    (params : Params) (instances : Instances) (v : quotient) :
  evaluate_model_on_pp params instances = Ok v ->
  let processed := full_size params lm_tags (bucket_batcher instances 1) in
  exists s,
    tensor_sum (map perplexity processed) = PyTensor s
    /\ v = TensorQuot (tdiv_int s (Z.of_nat (length processed))).
Proof.
  intros H processed. unfold evaluate_model_on_pp in H.
  rewrite pp_loop_spec in H. fold processed in H.
  destruct processed as [|b bs].
  - discriminate H.
  - destruct (tensor_sum_nonempty (perplexity b) (map perplexity bs)) as [s Hs].
    cbn [map] in *. rewrite Hs in H. cbn [truediv] in H.
    exists s. split; [exact Hs |]. now inversion H.
Qed.

(** X15. With a negative [params.batch_size] no batch is processed, and
    [evaluate_model_on_pp] raises [ZeroDivisionError] on every input. *)
Theorem evaluate_model_on_pp_negative_batch_size
    (params : Params) (instances : Instances) :
  (batch_size params < 0)%Z ->
  evaluate_model_on_pp params instances = Raise ZeroDivisionError.
Proof.
  intros Hneg. unfold evaluate_model_on_pp. rewrite pp_loop_spec.
  rewrite full_size_negative by exact Hneg. reflexivity.
Qed.

(** X16. When no batch of the epoch has [params.batch_size] rows of
    ['tags'], [evaluate_model_on_f1] never calls the scorer and returns the
    ['f1-measure-overall'] of the scorer as it was made; unlike
    [evaluate_model_on_pp] it does not raise for want of a full batch. *)
Theorem evaluate_model_on_f1_no_full_batch
    (params : Params) (srl_eval_path : string) (instances : Instances) :
  full_size params tags (bucket_batcher instances 1) = [] ->
  evaluate_model_on_f1 params srl_eval_path instances
  = match fst (get_metric (new_scorer srl_eval_path ["V"]) true)
          !! "f1-measure-overall" with
    | Some f1 => Ok f1
    | None => Raise (KeyError "f1-measure-overall")
    end.
Proof.
  intros Hnone. unfold evaluate_model_on_f1. rewrite f1_loop_spec, Hnone.
  cbn [fold_left].
  destruct (get_metric (new_scorer srl_eval_path ["V"]) true) as [metric_dict m].
  reflexivity.
Qed.

End Loops.

(** *** A run on integers in place of tensors *)

Module Demo.

(** A batch is its number of rows and its loss; [exp] is a power of two. *)
Definition evaluate (batch_size : Z) (batches : list (Z * Z)) : result (quotient Z) :=
  evaluate_model_on_pp Z Z.to_nat (Z.pow 2) Z.add Z.add Z.div
    (Z * Z) fst (list (Z * Z)) (fun l _ => l) (Z * Z) (fun b => b) snd
    {| batch_size := batch_size |} batches.

End Demo.

Example demo_mean :
  Demo.evaluate 2 [(2, 1); (1, 5); (2, 3)]%Z = Ok (TensorQuot Z 5%Z).
Proof. reflexivity. Qed.

Example demo_no_full_batch :
  Demo.evaluate 2 [(1, 5); (3, 1)]%Z = Raise ZeroDivisionError.
Proof. reflexivity. Qed.

Example demo_no_batch : Demo.evaluate 2 [] = Raise ZeroDivisionError.
Proof. reflexivity. Qed.

(** *** Runs of the edge cases *)

Lemma evaluate_model_on_pp_returns_tensor_witness :
  exists s : Z,
    tensor_sum Z Z.add Z.add
      (map (perplexity Z (Z.pow 2) (Z * Z) (Z * Z) (fun b => b) snd)
           (full_size Z Z.to_nat (Z * Z) {| batch_size := 2 |} fst
                      [(2, 1); (1, 5); (2, 3)]%Z))
    = PyTensor Z s
    /\ TensorQuot Z 5%Z
       = TensorQuot Z
           (Z.div s
              (Z.of_nat
                 (length (full_size Z Z.to_nat (Z * Z) {| batch_size := 2 |} fst
                                    [(2, 1); (1, 5); (2, 3)]%Z)))).
Proof.
  apply (evaluate_model_on_pp_returns_tensor
           Z Z.to_nat (Z.pow 2) Z.add Z.add Z.div
           (Z * Z) fst (list (Z * Z)) (fun l _ => l) (Z * Z) (fun b => b) snd
           {| batch_size := 2 |} [(2, 1); (1, 5); (2, 3)]%Z (TensorQuot Z 5%Z)).
  reflexivity.
Defined.

Lemma evaluate_model_on_pp_negative_batch_size_witness :
  Demo.evaluate (-1) [(2, 1); (0, 5)]%Z = Raise ZeroDivisionError.
Proof.
  apply (evaluate_model_on_pp_negative_batch_size
           Z Z.to_nat (Z.pow 2) Z.add Z.add Z.div
           (Z * Z) fst (list (Z * Z)) (fun l _ => l) (Z * Z) (fun b => b) snd
           {| batch_size := -1 |} [(2, 1); (0, 5)]%Z).
  simpl. lia.
Defined.

Module DemoF1.

(** A batch is its number of rows and its metadata; the scorer counts its
    calls and reports the count as every score. *)
Definition Batch : Type := Z * list Metadata.

Definition get_metric (calls : nat) (reset : bool) : gmap string nat * nat :=
  ({["f1-measure-overall" := calls]}, if reset then 0 else calls).

Definition evaluate (batch_size : Z) (batches : list Batch) : result nat :=
  evaluate_model_on_f1 Z Z.to_nat Batch fst snd (list Batch) (fun l _ => l)
    (list (list string)) (fun b => map gold_tags (snd b)) (fun o => o)
    nat nat (fun _ _ => 0) (fun calls _ _ _ _ => S calls) get_metric (fun t => t)
    {| batch_size := batch_size |} "srl-eval.pl" batches.

End DemoF1.

Lemma evaluate_model_on_f1_no_full_batch_witness :
  DemoF1.evaluate 2 [(1%Z, []); (3%Z, [])]
  = match fst (DemoF1.get_metric 0 true) !! "f1-measure-overall" with
    | Some f1 => Ok f1
    | None => Raise (KeyError "f1-measure-overall")
    end.
Proof.
  apply (evaluate_model_on_f1_no_full_batch
           Z Z.to_nat DemoF1.Batch fst snd (list DemoF1.Batch) (fun l _ => l)
           (list (list string)) (fun b => map gold_tags (snd b)) (fun o => o)
           nat nat (fun _ _ => 0) (fun calls _ _ _ _ => S calls)
           DemoF1.get_metric (fun t => t)
           {| batch_size := 2 |} "srl-eval.pl" [(1%Z, []); (3%Z, [])]).
  reflexivity.
Defined.

Example demo_f1_counts_full_batches :
  DemoF1.evaluate 2 [(2%Z, []); (3%Z, []); (2%Z, [])] = Ok 2.
Proof. vm_compute. reflexivity. Qed.

End Eval.

(** ** babybertsrl/model_lm.py: LMBert.decode *)

Module ModelLm.

(** [[f(x) for x in l]], where [f] may raise. *)
Fixpoint comprehension {A B : Type} (f : A -> result B) (l : list A)
  : result (list B) :=
  match l with
  | [] => Ok []
  | x :: l' => let! y := f x in let! ys := comprehension f l' in Ok (y :: ys)
  end.

(** [tags[i]] for an index that is not negative *)
Definition getitem (tags : list string) (i : nat) : result string :=
  match tags !! i with
  | Some t => Ok t
  | None => Raise IndexError
  end.

(** [zip(a, b, c)] *)
Definition zip3 {A B C : Type} (a : list A) (b : list B) (c : list C)
  : list (A * B * C) :=
  zip (zip a b) c.

Section Decode.

(** A row of class probabilities, the mask tensor, and the tensors of
    zeros handed to the Viterbi decoder. *)
Variable Row : Type.
Variable Mask : Type.
Variable Matrix : Type.
Variable Vector : Type.
Variable zeros2 : nat -> nat -> Matrix.
Variable zeros1 : nat -> Vector.

(** [get_lengths_from_binary_sequence_mask(mask).data.tolist()] *)
Variable get_lengths_from_binary_sequence_mask : Mask -> list nat.

(** The path returned by [allennlp.nn.util.viterbi_decode]. Like the
    lengths above it is taken as a function: an exception of these calls is
    outside the model, and the properties below are about the calls of
    [decode] that return. *)
Variable viterbi_decode : list Row -> Matrix -> Vector -> list nat.

(** [self.vocab.get_index_to_token_vocabulary("labels")] *)
Variable all_labels : gmap nat string.

(** [output_dict['class_probabilities']]: a tensor of three dimensions, or
    the rows of a single sequence. *)
Inductive Probs : Type :=
| Dim3 (seqs : list (list Row))
| Dim2 (rows : list Row).

(** The entries of [output_dict] that [decode] reads. *)
Record OutputDict : Type := {
  class_probabilities : Probs;
  mask : Mask;
  wordpiece_offsets : list (list nat)
}.

(** [output_dict] with the two entries that [decode] adds. *)
Record Decoded : Type := {
  output_dict : OutputDict;
  wordpiece_lm_tags : list (list string);
  lm_tags : list (list string)
}.

(** [self.vocab.get_token_from_index(x, namespace="labels")] *)
Definition get_token_from_index (x : nat) : result string :=
  match all_labels !! x with
  | Some t => Ok t
  | None => Raise (KeyError (str_of_nat x))
  end.

Definition predictions_list (all_predictions : Probs) : list (list Row) :=
  match all_predictions with
  | Dim3 seqs => seqs
  | Dim2 rows => [rows]
  end.

(** The body of the loop; the state is [(wordpiece_tags, word_tags)]. *)
Definition decode_step (transition_matrix : Matrix) (start_transitions : Vector)
    (st : list (list string) * list (list string))
    (item : list Row * nat * list nat)
  : result (list (list string) * list (list string)) :=
  let '(wordpiece_tags, word_tags) := st in
  let '(predictions, seq_len, offsets) := item in
  let tag_sequence := take seq_len predictions in
  let max_likelihood_sequence :=
    viterbi_decode tag_sequence transition_matrix start_transitions in
  let! tags := comprehension get_token_from_index max_likelihood_sequence in
  let wordpiece_tags := wordpiece_tags ++ [tags] in
  let! at_offsets := comprehension (getitem tags) offsets in
  Ok (wordpiece_tags, word_tags ++ [at_offsets]).

Definition decode (output_dict : OutputDict) : result Decoded :=
  let all_predictions := class_probabilities output_dict in
  let sequence_lengths := get_lengths_from_binary_sequence_mask (mask output_dict) in
  let predictions_list := predictions_list all_predictions in
  let num_labels := size all_labels in
  let transition_matrix := zeros2 num_labels num_labels in
  let start_transitions := zeros1 num_labels in
  let! st := for_each (decode_step transition_matrix start_transitions)
                      (zip3 predictions_list sequence_lengths
                            (wordpiece_offsets output_dict))
                      ([], []) in
  let '(wordpiece_tags, word_tags) := st in
  Ok {| output_dict := output_dict;
        wordpiece_lm_tags := wordpiece_tags;
        lm_tags := word_tags |}.

(** *** What the properties are stated against *)

(** The sequences the loop of [decode] runs over. *)
Definition decode_items (od : OutputDict) : list (list Row * nat * list nat) :=
  zip3 (predictions_list (class_probabilities od))
       (get_lengths_from_binary_sequence_mask (mask od))
       (wordpiece_offsets od).

(** The Viterbi path of one sequence, cut at its length. *)
Definition path_of (item : list Row * nat * list nat) : list nat :=
  viterbi_decode (take (snd (fst item)) (fst (fst item)))
                 (zeros2 (size all_labels) (size all_labels))
                 (zeros1 (size all_labels)).

(** What the loop does for one sequence: the wordpiece tags and the tags
    at the word offsets. *)
Definition decode_one (item : list Row * nat * list nat)
  : result (list string * list string) :=
  let! tags := comprehension get_token_from_index (path_of item) in
  let! at_offsets := comprehension (getitem tags) (snd item) in
  Ok (tags, at_offsets).

(** *** decode: proofs *)

Lemma comprehension_ok_iff {A B : Type} (f : A -> result B) (l : list A) :
  forall l', comprehension f l = Ok l' <-> Forall2 (fun a b => f a = Ok b) l l'.
Proof.
  induction l as [|a l IH]; intros l'; cbn [comprehension].
  - split; [intros H; inversion H; constructor | intros H; inversion H; reflexivity].
  - destruct (f a) as [b | e] eqn:Hf; cbn [bind].
    + destruct (comprehension f l) as [bs | e] eqn:Hc; cbn [bind].
      * split.
        -- intros H. inversion H; subst. constructor; [exact Hf | now apply IH].
        -- intros H. inversion H as [|a' b' l0 l0' Hab Hrest]; subst.
           apply IH in Hrest. congruence.
      * split; [discriminate |].
        intros H. inversion H as [|a' b' l0 l0' Hab Hrest]; subst.
        apply IH in Hrest. discriminate.
    + split; [discriminate |].
      intros H. inversion H as [|a' b' l0 l0' Hab Hrest]; subst. congruence.
Qed.

Lemma decode_loop (T : Matrix) (V : Vector)
    (items : list (list Row * nat * list nat)) :
  T = zeros2 (size all_labels) (size all_labels) ->
  V = zeros1 (size all_labels) ->
  forall wp w,
    for_each (decode_step T V) items (wp, w)
    = let! outs := comprehension decode_one items in
      Ok (wp ++ map fst outs, w ++ map snd outs).
Proof.
  intros -> ->. induction items as [|[[p n] offs] items IH]; intros wp w.
  - cbn. now rewrite !app_nil_r.
  - cbn [for_each comprehension]. unfold decode_step at 1, decode_one at 1.
    change (viterbi_decode (take n p) (zeros2 (size all_labels) (size all_labels))
                           (zeros1 (size all_labels)))
      with (path_of (p, n, offs)).
    destruct (comprehension get_token_from_index (path_of (p, n, offs)))
      as [tags | e]; cbn [bind]; [| reflexivity].
    cbn [snd].
    destruct (comprehension (getitem tags) offs) as [at_offsets | e];
      cbn [bind]; [| reflexivity].
    rewrite IH.
    destruct (comprehension decode_one items) as [outs | e]; cbn [bind];
      [| reflexivity].
    cbn [map fst snd]. now rewrite <- !app_assoc.
Qed.

Lemma decode_spec (od : OutputDict) :
  decode od
  = let! outs := comprehension decode_one (decode_items od) in
    Ok {| output_dict := od;
          wordpiece_lm_tags := map fst outs;
          lm_tags := map snd outs |}.
Proof.
  unfold decode. rewrite decode_loop by reflexivity.
  fold (decode_items od).
  destruct (comprehension decode_one (decode_items od)) as [outs | e];
    reflexivity.
Qed.

Lemma get_token_from_index_ok x t :
  get_token_from_index x = Ok t <-> all_labels !! x = Some t.
Proof.
  unfold get_token_from_index. destruct (all_labels !! x); split; congruence.
Qed.

Lemma getitem_ok tags i t : getitem tags i = Ok t <-> tags !! i = Some t.
Proof. unfold getitem. destruct (tags !! i); split; congruence. Qed.

Lemma decode_one_ok item tags at_offsets :
  decode_one item = Ok (tags, at_offsets)
  <-> Forall2 (fun x t => all_labels !! x = Some t) (path_of item) tags
      /\ Forall2 (fun i t => tags !! i = Some t) (snd item) at_offsets.
Proof.
  unfold decode_one. split.
  - intros H.
    destruct (comprehension get_token_from_index (path_of item)) as [ts | e] eqn:H1;
      [| discriminate].
    cbn [bind] in H.
    destruct (comprehension (getitem ts) (snd item)) as [ws | e] eqn:H2;
      [| discriminate].
    inversion H; subst. split.
    + apply comprehension_ok_iff in H1.
      eapply Forall2_impl; [exact H1 |]. intros x t. apply get_token_from_index_ok.
    + apply comprehension_ok_iff in H2.
      eapply Forall2_impl; [exact H2 |]. intros i t. apply getitem_ok.
  - intros [H1 H2].
    assert (E1 : comprehension get_token_from_index (path_of item) = Ok tags).
    { apply comprehension_ok_iff. eapply Forall2_impl; [exact H1 |].
      intros x t. apply get_token_from_index_ok. }
    assert (E2 : comprehension (getitem tags) (snd item) = Ok at_offsets).
    { apply comprehension_ok_iff. eapply Forall2_impl; [exact H2 |].
      intros i t. apply getitem_ok. }
    rewrite E1. cbn [bind]. rewrite E2. reflexivity.
Qed.

Lemma zip_map_fst_snd {A B : Type} (l : list (A * B)) :
  zip (map fst l) (map snd l) = l.
Proof.
  induction l as [|[a b] l IH]; [reflexivity |].
  cbn [map fst snd zip_with]. now rewrite IH.
Qed.

(** X17. When [decode] returns, it has added one list of wordpiece tags and
    one list of word tags for each sequence of the loop, in order. The
    wordpiece tags are the ['labels'] tokens of the indices of the Viterbi
    path, and the word tags are the wordpiece tags found at the word
    offsets, one for every offset. The other entries are unchanged. *)
Theorem decode_tags_at_offsets (od : OutputDict) (out : Decoded) :
  decode od = Ok out ->
  output_dict out = od
  /\ length (wordpiece_lm_tags out) = length (lm_tags out)
  /\ Forall2
       (fun item pair =>
          Forall2 (fun x t => all_labels !! x = Some t) (path_of item) (fst pair)
          /\ Forall2 (fun i t => fst pair !! i = Some t) (snd item) (snd pair))
       (decode_items od)
       (zip (wordpiece_lm_tags out) (lm_tags out)).
Proof.
  intros H. rewrite decode_spec in H.
  destruct (comprehension decode_one (decode_items od)) as [outs | e] eqn:Hc;
    [| discriminate].
  cbn [bind] in H. inversion H; subst out. cbn.
  split; [reflexivity |]. split; [now rewrite !length_map |].
  rewrite zip_map_fst_snd. apply comprehension_ok_iff in Hc.
  eapply Forall2_impl; [exact Hc |].
  intros item [tags ws] Hone. now apply decode_one_ok in Hone.
Qed.

(** X20. [decode] handles as many sequences as the shortest of the list of
    predictions, the list of sequence lengths and the list of offsets; when
    the class probabilities do not have three dimensions this is at most
    one sequence. *)
Theorem decode_number_of_sequences (od : OutputDict) (out : Decoded) :
  decode od = Ok out ->
  length (lm_tags out)
  = Nat.min (Nat.min (length (predictions_list (class_probabilities od)))
                     (length (get_lengths_from_binary_sequence_mask (mask od))))
            (length (wordpiece_offsets od))
  /\ (forall rows, class_probabilities od = Dim2 rows -> length (lm_tags out) <= 1).
Proof.
  intros H. rewrite decode_spec in H.
  destruct (comprehension decode_one (decode_items od)) as [outs | e] eqn:Hc;
    [| discriminate].
  cbn [bind] in H. inversion H; subst out. cbn [lm_tags].
  apply comprehension_ok_iff, Forall2_length in Hc.
  rewrite length_map, <- Hc. unfold decode_items, zip3.
  rewrite !length_zip_with. split; [reflexivity |].
  intros rows Hd. rewrite Hd. cbn [predictions_list length]. lia.
Qed.

End Decode.

(** *** A run with row indices in place of probabilities *)

Module Demo.

(** A row is the index of its most likely label, the mask is the list of
    the sequence lengths, and the Viterbi path of a sequence is its rows. *)
Definition all_labels : gmap nat string := {[ 0 := "the"; 1 := "ball"; 2 := "##s" ]}.

Definition decode (od : OutputDict nat (list nat))
  : result (Decoded nat (list nat)) :=
  ModelLm.decode nat (list nat) unit unit (fun _ _ => tt) (fun _ => tt)
    (fun m => m) (fun rows _ _ => rows) all_labels od.

Definition od : OutputDict nat (list nat) :=
  {| class_probabilities := Dim3 nat [[0; 1; 2; 0]; [1; 0]];
     mask := [3; 2];
     wordpiece_offsets := [[0; 1]; [1]] |}.

Definition out : Decoded nat (list nat) :=
  {| output_dict := od;
     wordpiece_lm_tags := [["the"; "ball"; "##s"]; ["ball"; "the"]];
     lm_tags := [["the"; "ball"]; ["the"]] |}.

(** The second sequence has an offset beyond its two wordpieces. *)
Definition od_bad_offset : OutputDict nat (list nat) :=
  {| class_probabilities := Dim3 nat [[0; 1; 2; 0]; [1; 0]];
     mask := [3; 2];
     wordpiece_offsets := [[0; 1]; [2]] |}.

End Demo.

Example demo_decode : Demo.decode Demo.od = Ok Demo.out.
Proof. vm_compute. reflexivity. Qed.

Example demo_decode_bad_offset : Demo.decode Demo.od_bad_offset = Raise IndexError.
Proof. vm_compute. reflexivity. Qed.

Lemma decode_tags_at_offsets_witness :
  output_dict nat (list nat) Demo.out = Demo.od
  /\ length (wordpiece_lm_tags nat (list nat) Demo.out)
     = length (lm_tags nat (list nat) Demo.out)
  /\ Forall2
       (fun item pair =>
          Forall2 (fun x t => Demo.all_labels !! x = Some t)
                  (path_of nat unit unit (fun _ _ => tt) (fun _ => tt)
                           (fun rows _ _ => rows) Demo.all_labels item)
                  (fst pair)
          /\ Forall2 (fun i t => fst pair !! i = Some t) (snd item) (snd pair))
       (decode_items nat (list nat) (fun m => m) Demo.od)
       (zip (wordpiece_lm_tags nat (list nat) Demo.out)
            (lm_tags nat (list nat) Demo.out)).
Proof.
  apply (decode_tags_at_offsets nat (list nat) unit unit (fun _ _ => tt)
           (fun _ => tt) (fun m => m) (fun rows _ _ => rows) Demo.all_labels
           Demo.od Demo.out).
  vm_compute. reflexivity.
Defined.

Lemma decode_number_of_sequences_witness :
  length (lm_tags nat (list nat) Demo.out)
  = Nat.min (Nat.min (length (predictions_list nat
                                (class_probabilities nat (list nat) Demo.od)))
                     (length (mask nat (list nat) Demo.od)))
            (length (wordpiece_offsets nat (list nat) Demo.od))
  /\ (forall rows, class_probabilities nat (list nat) Demo.od = Dim2 nat rows ->
                   length (lm_tags nat (list nat) Demo.out) <= 1).
Proof.
  apply (decode_number_of_sequences nat (list nat) unit unit (fun _ _ => tt)
           (fun _ => tt) (fun m => m) (fun rows _ _ => rows) Demo.all_labels
           Demo.od Demo.out).
  vm_compute. reflexivity.
Defined.

End ModelLm.
